(** * CAS ticket validation and identity mapping

    A shallow embedding of [synapse/handlers/cas_handler.py] (class
    [CasHandler]) together with the properties of its service-URL builder,
    ticket validator, response parser, identity-mapping callbacks and
    completion dispatcher.

    Python values are modelled as follows.
    - [str] and [bytes] are [string] (a sequence of bytes; a [str] is read as
      its UTF-8 encoding).
    - [Optional[T]] is [option T]; truthiness of an [Optional[str]] is
      [truthy].
    - A [dict] that is only looked up, inserted into and popped from is a
      [gmap]; a [dict] whose iteration order is observable
      ([urllib.parse.urlencode], [list(users.keys())[0]]) is an association
      list in insertion order.
    - Exceptions are the constructors of [exn]; a function that may raise
      returns a [result]. *)

From Stdlib Require Import ZArith Ascii.
From Stdlib Require String.
From stdpp Require Import base option list strings gmap fin_maps.

(** ** Exceptions and results *)

Inductive Codes : Type := UNAUTHORIZED.

Inductive exn : Type :=
| LoginError (code : Z) (msg : string) (errcode : Codes)
| PartialDownloadError (response : string)
| MappingException (msg : string)
| RuntimeError (msg : string)
| AssertionError
| IndexError
| Exception (msg : string)
| OtherError (name : string).

Inductive result (A : Type) : Type :=
| Ok (a : A)
| Raise (e : exn).
Arguments Ok {A} a.
Arguments Raise {A} e.

Global Instance result_ret : MRet result := fun A a => Ok a.

Global Instance result_bind : MBind result := fun A B k r =>
  match r with
  | Ok a => k a
  | Raise e => Raise e
  end.

(** ** Python string primitives *)

Module Str.

(** [c in s] for a one-character needle. *)
Fixpoint contains (c : ascii) (s : string) : bool :=
  match s with
  | EmptyString => false
  | String a s' => Ascii.eqb a c || contains c s'
  end.

(** [s.split(sep)] for a one-character separator: every occurrence of the
    separator ends a piece, so the result has one more piece than there are
    separators. *)
Fixpoint split (sep : ascii) (s : string) : list string :=
  match s with
  | EmptyString => [EmptyString]
  | String a s' =>
      if Ascii.eqb a sep then EmptyString :: split sep s'
      else match split sep s' with
           | [] => [String a EmptyString]
           | w :: ws => String a w :: ws
           end
  end.

(** [s.endswith(suffix)]: some tail of [s] is [suffix]. *)
Fixpoint endswith (s suffix : string) : bool :=
  String.eqb s suffix ||
  match s with
  | EmptyString => false
  | String _ s' => endswith s' suffix
  end.

(** [l[i]], raising [IndexError] out of range. *)
Definition index {A : Type} (l : list A) (i : nat) : result A :=
  match l !! i with
  | Some x => Ok x
  | None => Raise IndexError
  end.

(** The substring after the last occurrence of [c], or the whole string
    when [c] does not occur. This is the reading of a tag's local name
    used to compare with what the parser stores. *)
Fixpoint after_last (c : ascii) (s : string) : string :=
  match s with
  | EmptyString => EmptyString
  | String a s' =>
      if contains c s' then after_last c s'
      else if Ascii.eqb a c then s' else s
  end.

(** Truthiness of an [Optional[str]]: [None] and the empty string are
    falsy; a truthy value is returned as the string it holds. *)
Definition truthy (o : option string) : option string :=
  match o with
  | None => None
  | Some s => if String.eqb s EmptyString then None else Some s
  end.

End Str.

(** ** [urllib.parse]: [quote_plus] and [urlencode] *)

Module Urllib.

Definition in_range (lo hi : N) (a : ascii) : bool :=
  let n := N_of_ascii a in (lo <=? n)%N && (n <=? hi)%N.

(** The characters that are never quoted: letters, digits and [_.-~]. *)
Definition always_safe (a : ascii) : bool :=
  in_range 65 90 a || in_range 97 122 a || in_range 48 57 a ||
  Ascii.eqb a "_" || Ascii.eqb a "." || Ascii.eqb a "-" || Ascii.eqb a "~".

Definition hex_digit (n : N) : ascii :=
  if (n <? 10)%N then ascii_of_N (48 + n) else ascii_of_N (55 + n).

(** ["%{:02X}"] of one byte. *)
Definition percent (a : ascii) : string :=
  let n := N_of_ascii a in
  String "%" (String (hex_digit (n / 16)) (String (hex_digit (n mod 16)) "")).

Fixpoint quote_plus (s : string) : string :=
  match s with
  | EmptyString => EmptyString
  | String a s' =>
      (if always_safe a then String a EmptyString
       else if Ascii.eqb a " " then "+"
       else percent a) +:+ quote_plus s'
  end.

Fixpoint join (sep : string) (l : list string) : string :=
  match l with
  | [] => EmptyString
  | [x] => x
  | x :: l' => x +:+ sep +:+ join sep l'
  end.

(** [urlencode(query)] for a dict of strings: the pairs in the dict's
    iteration order, both sides quoted, joined with [&]. *)
Definition urlencode (query : list (string * string)) : string :=
  join "&" (map (fun kv => quote_plus kv.1 +:+ "=" +:+ quote_plus kv.2) query).

End Urllib.

(** ** [xml.etree.ElementTree.Element] *)

#[warnings="-register-all"]
Inductive Element : Type :=
  mkElement { tag : string; text : option string; children : list Element }.

(** ** The handler object *)

(** [synapse.handlers.sso.UserAttributes]. *)
Record UserAttributes : Type :=
  mkUserAttributes { localpart : string; display_name : option string }.

(** What the handler reads from the incoming [SynapseRequest]. *)
Record SynapseRequest : Type :=
  { user_agent_header : option string; client_ip : string }.

(** [request.get_user_agent(default)]. *)
Definition get_user_agent (request : SynapseRequest) (default : string) : string :=
  match user_agent_header request with
  | Some ua => ua
  | None => default
  end.

(** [hs.get_ip_from_request(request)]. *)
Definition get_ip_from_request (request : SynapseRequest) : string :=
  client_ip request.

(** The fields [__init__] stores on [self]. The collaborators obtained from
    the home server (HTTP client, data store, SSO handler) are the functions
    the handler calls on them. *)
Record CasHandler : Type := {
  _hostname : string;
  _cas_server_url : string;
  _cas_service_url : string;
  _cas_displayname_attribute : option string;
  _cas_required_attributes : gmap string (option string);
  (* self._http_client.get_raw(uri, args) *)
  get_raw : string -> list (string * string) -> result string;
  (* self._store.get_users_by_id_case_insensitive(user_id): the matching
     rows keyed by stored user id, in the dict's iteration order *)
  get_users_by_id_case_insensitive : string -> list (string * option string);
  (* self._sso_handler.get_mxid_from_sso(auth_provider_id, remote_user_id,
       user_agent, ip_address, sso_to_matrix_id_mapper,
       grandfather_existing_users) *)
  get_mxid_from_sso :
    string -> string -> string -> string ->
    (Z -> result UserAttributes) -> (unit -> option string) -> result string
}.

(** The calls [handle_ticket] ends with. *)
Inductive Completion : Type :=
| render_error (error : string) (error_description : string)
| complete_sso_ui_auth (user_id : string) (session : string)
| complete_sso_login (user_id : string) (client_redirect_url : string).

(** Modelled from the spec: [synapse.types.UserID(localpart, domain).to_string()]
    is not part of the sources at hand; the spec gives the fully-qualified
    local user identifier the form [@localpart:domain]. *)
Definition UserID_to_string (localpart domain : string) : string :=
  "@" +:+ localpart +:+ ":" +:+ domain.

(** [self._auth_provider_id], the identifier for the external-ids table. *)
Definition _auth_provider_id : string := "cas".

Definition Unauthorized : exn := LoginError 401 "Unauthorized" UNAUTHORIZED.
Definition InvalidCasResponse : exn :=
  LoginError 401 "Invalid CAS response" UNAUTHORIZED.
Definition UnsuccessfulCasResponse : exn :=
  LoginError 401 "Unsuccessful CAS response" UNAUTHORIZED.

Section CasHandler.

(** [xml.etree.ElementTree.fromstring]: the parsed root element, or the
    parser's exception. *)
Variable fromstring : string -> result Element.

(** [synapse.types.map_username_to_mxid_localpart]: the fixed
    normalization of a remote username to a local-identifier fragment. *)
Variable map_username_to_mxid_localpart : string -> string.

Variable self : CasHandler.

Definition _build_service_param (args : list (string * string)) : string :=
  _cas_service_url self +:+ "/_matrix/client/r0/login/cas/ticket" +:+ "?" +:+
  Urllib.urlencode args.

(** Lines 145-147: the key an attribute element is stored under. *)
Definition attribute_key (tag : string) : result string :=
  if Str.contains "}" tag then Str.index (Str.split "}" tag) 1 else Ok tag.

(** [for attribute in child: ...] *)
Fixpoint for_attribute (l : list Element)
    (attributes : gmap string (option string))
    : result (gmap string (option string)) :=
  match l with
  | [] => Ok attributes
  | attribute :: l' =>
      tag ← attribute_key (tag attribute);
      for_attribute l' (<[tag := text attribute]> attributes)
  end.

(** [for child in root[0]: ...] on the variables [user] and [attributes]. *)
Fixpoint for_child (l : list Element) (user : option string)
    (attributes : gmap string (option string))
    : result (option string * gmap string (option string)) :=
  match l with
  | [] => Ok (user, attributes)
  | child :: l' =>
      let user :=
        if Str.endswith (tag child) "user" then text child else user in
      attributes ←
        (if Str.endswith (tag child) "attributes"
         then for_attribute (children child) attributes
         else Ok attributes);
      for_child l' user attributes
  end.

(** The body of the [try] block of [_parse_cas_response]. *)
Definition try_parse (cas_response_body : string)
    : result (bool * string * gmap string (option string)) :=
  root ← fromstring cas_response_body;
  if negb (Str.endswith (tag root) "serviceResponse")
  then Raise (Exception "root of CAS response is not serviceResponse")
  else
    root0 ← Str.index (children root) 0;
    let success := Str.endswith (tag root0) "authenticationSuccess" in
    '(user, attributes) ← for_child (children root0) None ∅;
    match user with
    | None => Raise (Exception "CAS response does not contain user")
    | Some user => Ok (success, user, attributes)
    end.

Definition _parse_cas_response (cas_response_body : string)
    : result (string * gmap string (option string)) :=
  match try_parse cas_response_body with
  | Raise _ => Raise InvalidCasResponse
  | Ok (success, user, attributes) =>
      if negb success then Raise UnsuccessfulCasResponse
      else Ok (user, attributes)
  end.

(** [attributes.pop(key, None)]: the popped value and the dict left. *)
Definition pop (attributes : gmap string (option string)) (key : option string)
    : option string * gmap string (option string) :=
  match key with
  | None => (None, attributes)
  | Some k => (default None (attributes !! k), delete k attributes)
  end.

(** Lines 103-113: the loop over [self._cas_required_attributes.items()]. *)
Fixpoint for_required (items : list (string * option string))
    (attributes : gmap string (option string)) : result unit :=
  match items with
  | [] => Ok ()
  | (required_attribute, required_value) :: items' =>
      match attributes !! required_attribute with
      | None => Raise Unauthorized
      | Some actual_value =>
          match required_value with
          | Some v =>
              if bool_decide (Some v ≠ actual_value) then Raise Unauthorized
              else for_required items' attributes
          | None => for_required items' attributes
          end
      end
  end.

(** Lines 88-98: the validation request and the body it yields. A
    [PartialDownloadError] is caught and its [response] taken as the body;
    any other exception of [get_raw] is not caught. *)
Definition fetch_body (ticket : string)
    (service_args : list (string * string)) : result string :=
  let uri := _cas_server_url self +:+ "/proxyValidate" in
  let args :=
    [("ticket", ticket); ("service", _build_service_param service_args)] in
  match get_raw self uri args with
  | Ok body => Ok body
  | Raise (PartialDownloadError response) => Ok response
  | Raise e => Raise e
  end.

Definition _validate_ticket (ticket : string)
    (service_args : list (string * string))
    : result (string * option string) :=
  body ← fetch_body ticket service_args;
  '(user, attributes) ← _parse_cas_response body;
  let '(displayname, attributes) :=
    pop attributes (_cas_displayname_attribute self) in
  _ ← for_required (map_to_list (_cas_required_attributes self)) attributes;
  Ok (user, displayname).

Definition get_redirect_url (service_args : list (string * string)) : string :=
  let args :=
    Urllib.urlencode [("service", _build_service_param service_args)] in
  _cas_server_url self +:+ "/login?" +:+ args.

(** The two closures of [_map_cas_user_to_matrix_user]. *)
Definition cas_response_to_user_attributes
    (remote_user_id : string) (display_name : option string)
    (failures : Z) : result UserAttributes :=
  let localpart := map_username_to_mxid_localpart remote_user_id in
  if bool_decide (failures ≠ 0%Z)
  then Raise (RuntimeError "CAS is not expected to de-duplicate Matrix IDs")
  else Ok (mkUserAttributes localpart display_name).

Definition grandfather_existing_users (remote_user_id : string)
    (_ : unit) : option string :=
  let user_id :=
    UserID_to_string (map_username_to_mxid_localpart remote_user_id)
                     (_hostname self) in
  let users := get_users_by_id_case_insensitive self user_id in
  match users with
  | _ :: _ => (users.*1) !! 0%nat
  | [] => None
  end.

Definition _map_cas_user_to_matrix_user
    (remote_user_id : string) (display_name : option string)
    (user_agent ip_address : string) : result string :=
  get_mxid_from_sso self _auth_provider_id remote_user_id
    user_agent ip_address
    (cas_response_to_user_attributes remote_user_id display_name)
    (grandfather_existing_users remote_user_id).

(** Lines 206-210: the service arguments rebuilt from the request. *)
Definition ticket_args (client_redirect_url session : option string)
    : list (string * string) :=
  let args := [] in
  let args :=
    match Str.truthy client_redirect_url with
    | Some url => args ++ [("redirectUrl", url)]
    | None => args
    end in
  match Str.truthy session with
  | Some s => args ++ [("session", s)]
  | None => args
  end.

Definition handle_ticket (request : SynapseRequest) (ticket : string)
    (client_redirect_url session : option string) : result Completion :=
  let args := ticket_args client_redirect_url session in
  '(username, user_display_name) ← _validate_ticket ticket args;
  let user_agent := get_user_agent request "" in
  let ip_address := get_ip_from_request request in
  match _map_cas_user_to_matrix_user username user_display_name
          user_agent ip_address with
  | Raise (MappingException e) => Ok (render_error "mapping_error" e)
  | Raise e => Raise e
  | Ok user_id =>
      match Str.truthy session with
      | Some s => Ok (complete_sso_ui_auth user_id s)
      | None =>
          match Str.truthy client_redirect_url with
          | None => Raise AssertionError
          | Some url => Ok (complete_sso_login user_id url)
          end
      end
  end.

End CasHandler.

(** ** Definitions used to state the properties *)

(** A tag's local name, ignoring a namespace prefix: what follows the last
    closing brace, or the whole tag. *)
Definition local_name (tag : string) : string := Str.after_last "}" tag.

(** The value of [user] when the loop over [root[0]] ends: the text of the
    last child whose tag ends with [user], if there is such a child. *)
Fixpoint find_user (l : list Element) (user : option string) : option string :=
  match l with
  | [] => user
  | child :: l' =>
      find_user l' (if Str.endswith (tag child) "user" then text child else user)
  end.

(** A required attribute is violated by [attributes]: it is absent, or it is
    present while the expected value is not [None] and differs from the
    value present. *)
Definition violated (attributes : gmap string (option string))
    (required_attribute : string) (required_value : option string) : Prop :=
  attributes !! required_attribute = None ∨
  ∃ actual_value v,
    attributes !! required_attribute = Some actual_value ∧
    required_value = Some v ∧ actual_value ≠ Some v.

(** The tags of parsed elements: a name, or [{namespace}name]. An XML name
    holds no brace and the parser refuses a namespace name with a closing
    brace, so a tag has no closing brace, or exactly one, with none before
    and none after it. *)
Definition element_tag (tag : string) : Prop :=
  Str.contains "}" tag = false ∨
  ∃ ns local,
    tag = ns +:+ String "}" local ∧
    Str.contains "}" ns = false ∧ Str.contains "}" local = false.

(** [args1 == args2] on dicts: the same keys with the same values, whatever
    the insertion order. *)
Definition dict_eq (args1 args2 : list (string * string)) : Prop :=
  NoDup args1.*1 ∧ NoDup args2.*1 ∧
  (list_to_map args1 : gmap string string) = list_to_map args2.

(** The same handler talking to another HTTP client. *)
Definition with_get_raw (self : CasHandler)
    (g : string -> list (string * string) -> result string) : CasHandler :=
  {| _hostname := _hostname self;
     _cas_server_url := _cas_server_url self;
     _cas_service_url := _cas_service_url self;
     _cas_displayname_attribute := _cas_displayname_attribute self;
     _cas_required_attributes := _cas_required_attributes self;
     get_raw := g;
     get_users_by_id_case_insensitive := get_users_by_id_case_insensitive self;
     get_mxid_from_sso := get_mxid_from_sso self |}.

(** ** Concrete responses and handlers

    The element trees below are what [ElementTree.fromstring] returns for
    the XML written next to them; [cas] abbreviates the namespace
    [http://www.yale.edu/tp/cas]. *)

Definition cas (local : string) : string :=
  "{http://www.yale.edu/tp/cas}" +:+ local.

Definition user_alice : Element := mkElement (cas "user") (Some "alice") [].

(** [<cas:serviceResponse><cas:authenticationSuccess><cas:user>alice</cas:user>
    </cas:authenticationSuccess></cas:serviceResponse>] *)
Definition response_alice : Element :=
  mkElement (cas "serviceResponse") None
    [mkElement (cas "authenticationSuccess") None [user_alice]].

(** The same with root [<somethingElse>]. *)
Definition response_something_else : Element :=
  mkElement "somethingElse" None
    [mkElement (cas "authenticationSuccess") None [user_alice]].

(** The same with root [<cas:myserviceResponse>]. *)
Definition response_my_service_response : Element :=
  mkElement (cas "myserviceResponse") None
    [mkElement (cas "authenticationSuccess") None [user_alice]].

(** [<cas:authenticationFailure>] carrying a user element. *)
Definition response_failure_with_user : Element :=
  mkElement (cas "serviceResponse") None
    [mkElement (cas "authenticationFailure") None [user_alice]].

(** [<cas:authenticationFailure code='INVALID_TICKET'>not recognized
    </cas:authenticationFailure>] *)
Definition response_failure_without_user : Element :=
  mkElement (cas "serviceResponse") None
    [mkElement (cas "authenticationFailure") (Some "not recognized") []].

(** A successful response with the given attribute elements. *)
Definition response_with_attributes (attrs : list Element) : Element :=
  mkElement (cas "serviceResponse") None
    [mkElement (cas "authenticationSuccess") None
       [user_alice; mkElement (cas "attributes") None attrs]].

(** A successful-looking response whose first child is
    [<cas:xauthenticationSuccess>]. *)
Definition response_x_authentication_success : Element :=
  mkElement (cas "serviceResponse") None
    [mkElement (cas "xauthenticationSuccess") None [user_alice]].

(** [<cas:authenticationFailure><cas:user/></cas:authenticationFailure>]:
    a user element with no text. *)
Definition response_failure_with_empty_user : Element :=
  mkElement (cas "serviceResponse") None
    [mkElement (cas "authenticationFailure") None
       [mkElement (cas "user") None []]].

(** [<cas:displayName>Bob B</cas:displayName>] *)
Definition display_name_bob : Element :=
  mkElement (cas "displayName") (Some "Bob B") [].

(** A handler for [example.org] with the given display-name attribute,
    required attributes and collaborators. *)
Definition example_handler
    (displayname_attribute : option string)
    (required_attributes : gmap string (option string))
    (http : result string)
    (users : string -> list (string * option string))
    (mxid : result string) : CasHandler :=
  {| _hostname := "example.org";
     _cas_server_url := "https://cas.example.org";
     _cas_service_url := "https://matrix.example.org";
     _cas_displayname_attribute := displayname_attribute;
     _cas_required_attributes := required_attributes;
     get_raw := fun _ _ => http;
     get_users_by_id_case_insensitive := users;
     get_mxid_from_sso := fun _ _ _ _ _ _ => mxid |}.

(** A stand-in for [map_username_to_mxid_localpart] in the examples:
    lower-casing of ASCII letters, which is what the normalization does to a
    username made of letters. *)
Fixpoint lower (s : string) : string :=
  match s with
  | EmptyString => EmptyString
  | String a s' =>
      String (if Urllib.in_range 65 90 a then ascii_of_N (N_of_ascii a + 32) else a)
             (lower s')
  end.

(** An identity store holding the legacy account [@Alice:example.org]. *)
Definition legacy_store (user_id : string) : list (string * option string) :=
  if String.eqb (lower user_id) "@alice:example.org"
  then [("@Alice:example.org", None)]
  else [].

(** ** Definitions for the properties of quoting

    [quote_char] is what [quote_plus] writes for one byte, and
    [unquote_plus] is [urllib.parse.unquote_plus], the decoder that undoes
    it: a [+] is a space and [%XX] with two hexadecimal digits is the byte
    they denote. *)

Definition quote_char (a : ascii) : string :=
  if Urllib.always_safe a then String a EmptyString
  else if Ascii.eqb a " " then "+"
  else Urllib.percent a.

(** The characters a quoted string is made of. *)
Definition quoted_alphabet (c : ascii) : bool :=
  Urllib.always_safe c || Ascii.eqb c "+" || Ascii.eqb c "%".

Fixpoint all_chars (P : ascii → bool) (s : string) : bool :=
  match s with
  | EmptyString => true
  | String a s' => P a && all_chars P s'
  end.

Definition hex_value (a : ascii) : option N :=
  let n := N_of_ascii a in
  if Urllib.in_range 48 57 a then Some (n - 48)%N
  else if Urllib.in_range 65 70 a then Some (n - 55)%N
  else if Urllib.in_range 97 102 a then Some (n - 87)%N
  else None.

Fixpoint unquote_plus (s : string) : string :=
  match s with
  | EmptyString => EmptyString
  | String a s' =>
      let plain :=
        String (if Ascii.eqb a "+" then " "%char else a) (unquote_plus s') in
      if Ascii.eqb a "%" then
        match s' with
        | String h (String l s'') =>
            match hex_value h, hex_value l with
            | Some x, Some y =>
                String (ascii_of_N (16 * x + y)) (unquote_plus s'')
            | _, _ => plain
            end
        | _ => plain
        end
      else plain
  end.

(** The same handler with another required-attribute policy. *)
Definition with_required_attributes (self : CasHandler)
    (required : gmap string (option string)) : CasHandler :=
  {| _hostname := _hostname self;
     _cas_server_url := _cas_server_url self;
     _cas_service_url := _cas_service_url self;
     _cas_displayname_attribute := _cas_displayname_attribute self;
     _cas_required_attributes := required;
     get_raw := get_raw self;
     get_users_by_id_case_insensitive := get_users_by_id_case_insensitive self;
     get_mxid_from_sso := get_mxid_from_sso self |}.

(** ** Lemmas on the string primitives *)

Lemma endswith_refl s : Str.endswith s s = true.
Proof. destruct s; simpl; rewrite ?Ascii.eqb_refl, ?String.eqb_refl; done. Qed.

Lemma endswith_app pre suffix : Str.endswith (pre +:+ suffix) suffix = true.
Proof.
  induction pre as [|a pre IH]; simpl.
  - apply endswith_refl.
  - rewrite IH. apply orb_true_r.
Qed.

Lemma endswith_inv s suffix :
  Str.endswith s suffix = true → ∃ pre, s = pre +:+ suffix.
Proof.
  induction s as [|a s IH]; cbn [Str.endswith]; intros H.
  - apply orb_true_iff in H as [H|H]; [|done].
    apply String.eqb_eq in H. by exists "".
  - apply orb_true_iff in H as [H|H].
    + apply String.eqb_eq in H. by exists "".
    + destruct (IH H) as [pre ->]. by exists (String a pre).
Qed.

Lemma split_cons c s : ∃ w ws, Str.split c s = w :: ws.
Proof.
  destruct s as [|a s]; simpl; [by eauto|].
  destruct (Ascii.eqb a c); [by eauto|].
  destruct (Str.split c s); eauto.
Qed.

Lemma split_contains c s :
  Str.contains c s = true → ∃ w1 w2 ws, Str.split c s = w1 :: w2 :: ws.
Proof.
  induction s as [|a s IH]; simpl; [done|].
  destruct (Ascii.eqb a c); simpl.
  - intros _. destruct (split_cons c s) as (w & ws & ->). eauto.
  - intros H. destruct (IH H) as (w1 & w2 & ws & ->). eauto.
Qed.

Lemma split_no_sep c s : Str.contains c s = false → Str.split c s = [s].
Proof.
  induction s as [|a s IH]; simpl; [done|].
  destruct (Ascii.eqb a c); simpl; [done|].
  intros H. by rewrite IH.
Qed.

Lemma split_app c s1 s2 :
  Str.contains c s1 = false →
  Str.split c (s1 +:+ String c s2) = s1 :: Str.split c s2.
Proof.
  induction s1 as [|a s1 IH]; simpl.
  - by rewrite Ascii.eqb_refl.
  - destruct (Ascii.eqb a c); simpl; [done|].
    intros H. by rewrite IH.
Qed.

Lemma contains_app c s1 s2 :
  Str.contains c (s1 +:+ s2) = Str.contains c s1 || Str.contains c s2.
Proof.
  induction s1 as [|a s1 IH]; simpl; [done|].
  by rewrite IH, orb_assoc.
Qed.

Lemma after_last_no_sep c s : Str.contains c s = false → Str.after_last c s = s.
Proof.
  destruct s as [|a s]; simpl; [done|].
  destruct (Ascii.eqb a c); simpl; [done|].
  by intros ->.
Qed.

Lemma after_last_app c s1 s2 :
  Str.contains c s2 = false → Str.after_last c (s1 +:+ String c s2) = s2.
Proof.
  intros H2. induction s1 as [|a s1 IH]; simpl.
  - by rewrite H2, Ascii.eqb_refl.
  - by rewrite contains_app; simpl; rewrite Ascii.eqb_refl, orb_true_r.
Qed.

(** ** Lemmas on the parser *)

Lemma attribute_key_total tag : ∃ key, attribute_key tag = Ok key.
Proof.
  unfold attribute_key. destruct (Str.contains "}" tag) eqn:H; [|by eauto].
  destruct (split_contains _ _ H) as (w1 & w2 & ws & ->). by exists w2.
Qed.

Lemma attribute_key_no_brace tag :
  Str.contains "}" tag = false →
  attribute_key tag = Ok tag ∧ local_name tag = tag.
Proof.
  intros H. unfold attribute_key, local_name. rewrite H.
  by rewrite after_last_no_sep.
Qed.

Lemma attribute_key_one_brace ns local :
  Str.contains "}" ns = false → Str.contains "}" local = false →
  attribute_key (ns +:+ String "}" local) = Ok local ∧
  local_name (ns +:+ String "}" local) = local.
Proof.
  intros Hns Hlocal. unfold attribute_key, local_name.
  rewrite contains_app; simpl; rewrite orb_true_r.
  rewrite split_app, split_no_sep, after_last_app by done. done.
Qed.

Lemma for_attribute_total l attributes :
  ∃ attributes', for_attribute l attributes = Ok attributes'.
Proof.
  revert attributes. induction l as [|attribute l IH]; intros attributes; simpl.
  - by eauto.
  - destruct (attribute_key_total (tag attribute)) as [key ->]. simpl. apply IH.
Qed.

Lemma for_child_find_user l user attributes :
  ∃ attributes', for_child l user attributes = Ok (find_user l user, attributes').
Proof.
  revert user attributes.
  induction l as [|child l IH]; intros user attributes; simpl.
  - by eauto.
  - destruct (Str.endswith (tag child) "attributes"); simpl; [|apply IH].
    destruct (for_attribute_total (children child) attributes) as [a' ->].
    simpl. apply IH.
Qed.

Lemma find_user_app l1 l2 user :
  find_user (l1 ++ l2) user = find_user l2 (find_user l1 user).
Proof. revert user. induction l1 as [|c l1 IH]; intros user; simpl; [done|apply IH]. Qed.

Lemma find_user_none_after l user :
  Forall (λ child, Str.endswith (tag child) "user" = false) l →
  find_user l user = user.
Proof.
  intros H. revert user. induction H as [|c l Hc _ IH]; intros user; simpl; [done|].
  rewrite Hc. apply IH.
Qed.

Lemma find_user_last before u after user :
  Str.endswith (tag u) "user" = true →
  Forall (λ child, Str.endswith (tag child) "user" = false) after →
  find_user (before ++ u :: after) user = text u.
Proof.
  intros Hu Hafter. rewrite find_user_app. simpl. rewrite Hu.
  by apply find_user_none_after.
Qed.

(** What the parser does once the root element is at hand. *)
Lemma parse_root fromstring body root :
  fromstring body = Ok root →
  _parse_cas_response fromstring body =
    if negb (Str.endswith (tag root) "serviceResponse")
    then Raise InvalidCasResponse
    else match children root with
         | [] => Raise InvalidCasResponse
         | root0 :: _ =>
             match for_child (children root0) None ∅ with
             | Ok (Some user, attributes) =>
                 if Str.endswith (tag root0) "authenticationSuccess"
                 then Ok (user, attributes)
                 else Raise UnsuccessfulCasResponse
             | _ => Raise InvalidCasResponse
             end
         end.
Proof.
  intros Hroot. unfold _parse_cas_response, try_parse. rewrite Hroot. simpl.
  destruct (Str.endswith (tag root) "serviceResponse"); simpl; [|done].
  destruct (children root) as [|root0 rest]; simpl; [done|].
  destruct (for_child (children root0) None ∅) as [[[user|] attributes]|e];
    simpl; try done.
  by destruct (Str.endswith (tag root0) "authenticationSuccess").
Qed.

(** ** Namespace stripping of attribute tags *)

(** C2. The key an attribute is stored under is a total function of the
    element's tag: for every tag of a parsed element, it is what follows the
    last closing brace when the tag has one, and the whole tag otherwise; the
    computation raises for no string at all. In particular
    [{http://example.org}department] is stored as [department]. *)
Theorem C2_attribute_key_is_local_name (tag : string) :
  element_tag tag →
  attribute_key tag =
    Ok (if Str.contains "}" tag then Str.after_last "}" tag else tag) ∧
  (∀ t, ∃ key, attribute_key t = Ok key) ∧
  attribute_key "{http://example.org}department" = Ok "department".
Proof.
  intros Htag. split; [|split; [apply attribute_key_total|reflexivity]].
  destruct Htag as [Hno|(ns & local & -> & Hns & Hlocal)].
  - rewrite Hno. by apply attribute_key_no_brace.
  - destruct (attribute_key_one_brace ns local Hns Hlocal) as [-> Hname].
    unfold local_name in Hname. rewrite Hname.
    by rewrite contains_app; simpl; rewrite orb_true_r.
Qed.

Lemma C2_witness :
  attribute_key "{http://www.yale.edu/tp/cas}department" =
    Ok (if Str.contains "}" "{http://www.yale.edu/tp/cas}department"
        then Str.after_last "}" "{http://www.yale.edu/tp/cas}department"
        else "{http://www.yale.edu/tp/cas}department") ∧
  (∀ t, ∃ key, attribute_key t = Ok key) ∧
  attribute_key "{http://example.org}department" = Ok "department".
Proof.
  apply (C2_attribute_key_is_local_name "{http://www.yale.edu/tp/cas}department").
  right. exists "{http://www.yale.edu/tp/cas", "department". by repeat split.
Defined.

(** On a string with two closing braces, which is the tag of no parsed
    element, the second piece of the split is not what follows the last
    brace. *)
Lemma attribute_key_two_braces :
  attribute_key "{a}b}c" = Ok "b" ∧ Str.after_last "}" "{a}b}c" = "c".
Proof. split; reflexivity. Qed.

(** The tag of the spec's example is stored under its local name. *)
Lemma attribute_key_example_org :
  attribute_key "{http://example.org}department" = Ok "department".
Proof. reflexivity. Qed.

(** ** The root and success checks of the parser *)

(** C4, as stated, fails: the root [<cas:myserviceResponse>] has the local
    name [myserviceResponse], not [serviceResponse], and the response is
    accepted. *)
Lemma C4_counterexample :
  local_name (tag response_my_service_response) = "myserviceResponse" ∧
  local_name (tag response_my_service_response) ≠ "serviceResponse" ∧
  _parse_cas_response (λ _, Ok response_my_service_response) EmptyString
  = Ok ("alice", ∅) ∧
  _parse_cas_response (λ _, Ok response_my_service_response) EmptyString
  ≠ Raise InvalidCasResponse.
Proof. repeat split; vm_compute; done. Qed.

(** C4 (amended). [_parse_cas_response] fails with the invalid-response
    error unless the body parses to a root element whose tag ends with
    [serviceResponse]. In particular a root tagged [somethingElse] is
    invalid, and a root whose tag ends with [serviceResponse], whose first
    child's tag ends with [authenticationSuccess] and has [alice] as the text
    of its last user element, yields the user [alice]. *)
Theorem C4_root_tag_must_end_with_serviceResponse
    (fromstring : string → result Element) (body : string) :
  ((∀ root, fromstring body = Ok root →
            Str.endswith (tag root) "serviceResponse" = false) →
   _parse_cas_response fromstring body = Raise InvalidCasResponse) ∧
  (∀ root, fromstring body = Ok root → tag root = "somethingElse" →
           _parse_cas_response fromstring body = Raise InvalidCasResponse) ∧
  (∀ root root0 rest before u after,
     fromstring body = Ok root →
     Str.endswith (tag root) "serviceResponse" = true →
     children root = root0 :: rest →
     Str.endswith (tag root0) "authenticationSuccess" = true →
     children root0 = before ++ u :: after →
     Str.endswith (tag u) "user" = true → text u = Some "alice" →
     Forall (λ child, Str.endswith (tag child) "user" = false) after →
     ∃ attributes,
       _parse_cas_response fromstring body = Ok ("alice", attributes)).
Proof.
  split; [|split].
  - intros H. destruct (fromstring body) as [root|e] eqn:Hroot.
    + rewrite (parse_root _ _ _ Hroot), (H root eq_refl). done.
    + unfold _parse_cas_response, try_parse. by rewrite Hroot.
  - intros root Hroot Htag. rewrite (parse_root _ _ _ Hroot), Htag. done.
  - intros root root0 rest before u after Hroot Htag Hch Hsucc Hch0 Hu Htext Hafter.
    rewrite (parse_root _ _ _ Hroot), Htag, Hch. simpl.
    destruct (for_child_find_user (children root0) None ∅) as [attributes ->].
    rewrite Hch0, (find_user_last _ _ _ _ Hu Hafter), Htext, Hsucc.
    by exists attributes.
Qed.

Lemma C4_witness :
  _parse_cas_response (λ _, Ok response_something_else) EmptyString
    = Raise InvalidCasResponse ∧
  ∃ attributes,
    _parse_cas_response (λ _, Ok response_alice) EmptyString
    = Ok ("alice", attributes).
Proof.
  split.
  - apply (proj1 (C4_root_tag_must_end_with_serviceResponse
                    (λ _, Ok response_something_else) EmptyString)).
    intros root [= <-]. reflexivity.
  - apply (proj2 (proj2 (C4_root_tag_must_end_with_serviceResponse
                           (λ _, Ok response_alice) EmptyString))
             response_alice
             (mkElement (cas "authenticationSuccess") None [user_alice])
             [] [] user_alice []);
      try reflexivity.
    constructor.
Defined.

(** C5, as stated, fails twice. A first child
    [<cas:xauthenticationSuccess>], which is not [authenticationSuccess], is
    taken as success and the response is accepted. And in an unsuccessful
    response whose user element has no text, the user element is present, yet
    the error is the invalid-response one, not the unsuccessful-response
    one. *)
Lemma C5_counterexample :
  (local_name (cas "xauthenticationSuccess") = "xauthenticationSuccess" ∧
   _parse_cas_response (λ _, Ok response_x_authentication_success) EmptyString
   = Ok ("alice", ∅)) ∧
  (Str.endswith (cas "authenticationFailure") "authenticationSuccess" = false ∧
   Str.endswith (cas "user") "user" = true ∧
   _parse_cas_response (λ _, Ok response_failure_with_empty_user) EmptyString
   = Raise InvalidCasResponse ∧
   InvalidCasResponse ≠ UnsuccessfulCasResponse).
Proof. repeat split; vm_compute; done. Qed.

(** C5 (amended). For a response whose root tag ends with [serviceResponse]
    and whose first child's tag does not end with [authenticationSuccess],
    the parser fails: with the unsuccessful-response error when the loop over
    the first child found a user (the last child whose tag ends with [user]
    has a text), and with the invalid-response error when it found none (no
    such child, or the last one has no text), the missing-user check coming
    first. *)
Theorem C5_unsuccessful_response_after_missing_user
    (fromstring : string → result Element) (body : string)
    (root root0 : Element) (rest : list Element) :
  fromstring body = Ok root →
  Str.endswith (tag root) "serviceResponse" = true →
  children root = root0 :: rest →
  Str.endswith (tag root0) "authenticationSuccess" = false →
  _parse_cas_response fromstring body =
    match find_user (children root0) None with
    | Some _ => Raise UnsuccessfulCasResponse
    | None => Raise InvalidCasResponse
    end.
Proof.
  intros Hroot Htag Hch Hfail.
  rewrite (parse_root _ _ _ Hroot), Htag, Hch. simpl.
  destruct (for_child_find_user (children root0) None ∅) as [attributes ->].
  rewrite Hfail. by destruct (find_user (children root0) None).
Qed.

Lemma C5_witness :
  _parse_cas_response (λ _, Ok response_failure_with_user) EmptyString
    = Raise UnsuccessfulCasResponse ∧
  _parse_cas_response (λ _, Ok response_failure_without_user) EmptyString
    = Raise InvalidCasResponse.
Proof.
  split.
  - apply (C5_unsuccessful_response_after_missing_user
             (λ _, Ok response_failure_with_user) EmptyString
             response_failure_with_user
             (mkElement (cas "authenticationFailure") None [user_alice]) []);
      reflexivity.
  - apply (C5_unsuccessful_response_after_missing_user
             (λ _, Ok response_failure_without_user) EmptyString
             response_failure_without_user
             (mkElement (cas "authenticationFailure") (Some "not recognized") [])
             []);
      reflexivity.
Defined.

(** ** Required attributes *)

Lemma violated_presence_only attributes required_attribute :
  violated attributes required_attribute None ↔
  attributes !! required_attribute = None.
Proof.
  unfold violated. split; [|by left].
  intros [H|(actual_value & v & _ & Hv & _)]; [done|discriminate].
Qed.

Lemma violated_value attributes required_attribute v :
  violated attributes required_attribute (Some v) ↔
  attributes !! required_attribute ≠ Some (Some v).
Proof.
  unfold violated. split.
  - intros [H|(actual_value & v' & H & [= <-] & Hne)]; rewrite H; congruence.
  - intros Hne. destruct (attributes !! required_attribute) as [actual_value|];
      [right|by left].
    exists actual_value, v. repeat split. congruence.
Qed.

Lemma for_required_cases items attributes :
  for_required items attributes = Ok () ∨
  for_required items attributes = Raise Unauthorized.
Proof.
  induction items as [|[k rv] items IH]; simpl; [by left|].
  destruct (attributes !! k) as [actual_value|]; [|by right].
  destruct rv as [v|]; [|done].
  case_bool_decide; [by right|done].
Qed.

Lemma for_required_raises items attributes :
  for_required items attributes = Raise Unauthorized ↔
  ∃ k rv, (k, rv) ∈ items ∧ violated attributes k rv.
Proof.
  induction items as [|[k rv] items IH]; simpl.
  - split; [done|]. intros (k & rv & Hin & _). by apply elem_of_nil in Hin.
  - assert (Hrest :
      (¬ violated attributes k rv) →
      (for_required items attributes = Raise Unauthorized ↔
       ∃ k' rv', (k', rv') ∈ (k, rv) :: items ∧ violated attributes k' rv')).
    { intros Hok. rewrite IH. split.
      - intros (k' & rv' & Hin & Hv). exists k', rv'. split; [by right|done].
      - intros (k' & rv' & Hin & Hv). apply elem_of_cons in Hin as [[= -> ->]|Hin];
          [done|by eauto]. }
    destruct (attributes !! k) as [actual_value|] eqn:Hk.
    + destruct rv as [v|].
      * case_bool_decide as Hne.
        -- split; [intros _|done]. exists k, (Some v). split; [by left|].
           apply violated_value. congruence.
        -- apply Hrest. rewrite violated_value, Hk. congruence.
      * apply Hrest. rewrite violated_presence_only. congruence.
    + split; [intros _|done]. exists k, rv. split; [by left|by left].
Qed.

Lemma required_violation_iff (required attributes : gmap string (option string)) :
  for_required (map_to_list required) attributes = Raise Unauthorized ↔
  ∃ k rv, required !! k = Some rv ∧ violated attributes k rv.
Proof.
  rewrite for_required_raises.
  split; intros (k & rv & H & Hv); exists k, rv; split; try done;
    by apply elem_of_map_to_list.
Qed.

(** What [_validate_ticket] does once the body is fetched and parsed. *)
Lemma validate_ticket_parsed fromstring self ticket service_args body user parsed :
  fetch_body self ticket service_args = Ok body →
  _parse_cas_response fromstring body = Ok (user, parsed) →
  _validate_ticket fromstring self ticket service_args =
    match for_required (map_to_list (_cas_required_attributes self))
            (pop parsed (_cas_displayname_attribute self)).2 with
    | Ok _ => Ok (user, (pop parsed (_cas_displayname_attribute self)).1)
    | Raise e => Raise e
    end.
Proof.
  intros Hfetch Hparse. unfold _validate_ticket.
  rewrite Hfetch. simpl. rewrite Hparse. simpl.
  by destruct (pop parsed (_cas_displayname_attribute self)) as [dn attrs].
Qed.

(** Let a ticket's response be fetched and parsed, and let [attributes]
    be the attribute map the policy loop reads (the parsed map once the
    display-name attribute is popped). [_validate_ticket] fails with the 401
    [Unauthorized] login error if and only if some required attribute is
    violated: absent from [attributes], or present while the expected value is
    not [None] and differs from the value present. Otherwise it returns the
    user and the display name. A presence-only entry is violated exactly when
    its key is absent. *)
Lemma unauthorized_iff_violated_after_pop
    fromstring self ticket service_args body user parsed :
  fetch_body self ticket service_args = Ok body →
  _parse_cas_response fromstring body = Ok (user, parsed) →
  let displayname := (pop parsed (_cas_displayname_attribute self)).1 in
  let attributes := (pop parsed (_cas_displayname_attribute self)).2 in
  (_validate_ticket fromstring self ticket service_args = Raise Unauthorized ↔
   ∃ k rv, _cas_required_attributes self !! k = Some rv ∧
           violated attributes k rv) ∧
  (_validate_ticket fromstring self ticket service_args = Ok (user, displayname) ↔
   ∀ k rv, _cas_required_attributes self !! k = Some rv →
           ¬ violated attributes k rv) ∧
  (∀ k, violated attributes k None ↔ attributes !! k = None).
Proof.
  intros Hfetch Hparse displayname attributes.
  rewrite (validate_ticket_parsed _ _ _ _ _ _ _ Hfetch Hparse).
  fold displayname attributes.
  pose proof (required_violation_iff (_cas_required_attributes self) attributes)
    as Hiff.
  destruct (for_required_cases
              (map_to_list (_cas_required_attributes self)) attributes) as [H|H];
    rewrite H in *.
  - split; [|split].
    + rewrite <- Hiff. done.
    + split; [|done]. intros _ k rv Hk Hv.
      assert (Ok () = Raise Unauthorized :> result unit) as [=].
      apply Hiff. eauto.
    + intros k. apply violated_presence_only.
  - split; [|split].
    + rewrite <- Hiff. done.
    + split; [done|]. intros Hall.
      destruct (proj1 Hiff eq_refl) as (k & rv & Hk & Hv).
      by destruct (Hall k rv Hk).
    + intros k. apply violated_presence_only.
Qed.

Lemma unauthorized_iff_violated_after_pop_example :
  _validate_ticket
    (λ _, Ok (response_with_attributes
                [mkElement (cas "department") (Some "sales") []]))
    (example_handler None {[ "department" := Some "eng" ]}
       (Ok EmptyString) (λ _, []) (Ok EmptyString))
    "T1" []
  = Raise Unauthorized.
Proof.
  apply (proj2 (proj1 (unauthorized_iff_violated_after_pop
           (λ _, Ok (response_with_attributes
                       [mkElement (cas "department") (Some "sales") []]))
           (example_handler None {[ "department" := Some "eng" ]}
              (Ok EmptyString) (λ _, []) (Ok EmptyString))
           "T1" [] EmptyString "alice" {[ "department" := Some "sales" ]}
           eq_refl eq_refl))).
  exists "department", (Some "eng"). split; [reflexivity|].
  right. exists (Some "sales"), "eng". repeat split. discriminate.
Defined.

(** When the display-name attribute is not itself required, the pop does not
    touch what the loop looks up, and the condition reads on the parsed
    attributes. *)
Lemma unauthorized_iff_violated_parsed
    fromstring self ticket service_args body user parsed :
  fetch_body self ticket service_args = Ok body →
  _parse_cas_response fromstring body = Ok (user, parsed) →
  (∀ k, _cas_displayname_attribute self = Some k →
        _cas_required_attributes self !! k = None) →
  (_validate_ticket fromstring self ticket service_args = Raise Unauthorized ↔
   ∃ k rv, _cas_required_attributes self !! k = Some rv ∧
           violated parsed k rv).
Proof.
  intros Hfetch Hparse Hdn.
  rewrite (validate_ticket_parsed _ _ _ _ _ _ _ Hfetch Hparse).
  assert (Hsame : ∀ k rv, _cas_required_attributes self !! k = Some rv →
         (pop parsed (_cas_displayname_attribute self)).2 !! k = parsed !! k).
  { intros k rv Hk. unfold pop.
    destruct (_cas_displayname_attribute self) as [dn|] eqn:Edn; simpl; [|done].
    apply lookup_delete_ne. intros ->. rewrite (Hdn k eq_refl) in Hk. done. }
  pose proof (required_violation_iff (_cas_required_attributes self)
                (pop parsed (_cas_displayname_attribute self)).2) as Hiff.
  destruct (for_required_cases
              (map_to_list (_cas_required_attributes self))
              (pop parsed (_cas_displayname_attribute self)).2) as [H|H];
    rewrite H in *.
  - split; [done|]. intros (k & rv & Hk & Hv).
    assert (Ok () = Raise Unauthorized :> result unit) as [=].
    apply Hiff. exists k, rv. split; [done|].
    unfold violated in *. by rewrite (Hsame k rv Hk).
  - split; [|done]. intros _.
    destruct (proj1 Hiff eq_refl) as (k & rv & Hk & Hv). exists k, rv.
    split; [done|]. unfold violated in *. by rewrite <- (Hsame k rv Hk).
Qed.

(** C3 (the validator on a required display-name attribute with an expected
    value). The response carries [displayName = Bob B]; the handler has
    [displayName] as display-name attribute and requires
    [displayName = Bob B]. No required attribute is violated by the parsed
    attributes: the one required attribute is present with the expected
    value. Yet [_validate_ticket] fails with [Unauthorized], so the failure
    is not equivalent to a violated requirement. *)
Theorem C3_unauthorized_without_violated_requirement :
  let fromstring := λ _ : string, Ok (response_with_attributes [display_name_bob]) in
  let self :=
    example_handler (Some "displayName") {[ "displayName" := Some "Bob B" ]}
      (Ok EmptyString) (λ _, []) (Ok EmptyString) in
  let parsed : gmap string (option string) :=
    {[ "displayName" := Some "Bob B" ]} in
  _parse_cas_response fromstring EmptyString = Ok ("alice", parsed) ∧
  (∀ k rv, _cas_required_attributes self !! k = Some rv →
           ¬ violated parsed k rv) ∧
  _validate_ticket fromstring self "T1" [] = Raise Unauthorized.
Proof.
  intros fromstring self parsed. split; [|split].
  - vm_compute. reflexivity.
  - intros k rv Hk Hv.
    change (_cas_required_attributes self)
      with ({[ "displayName" := Some "Bob B" ]} : gmap string (option string))
      in Hk.
    apply lookup_singleton_Some in Hk as [<- <-].
    apply violated_value in Hv. apply Hv. apply lookup_singleton_eq.
  - vm_compute. reflexivity.
Qed.

(** ** The display-name attribute and the required attributes *)

(** A required attribute that is also the display-name attribute is popped
    before the loop looks for it: no ticket validates. *)
Lemma validate_ticket_required_display_name
    fromstring self ticket service_args k :
  _cas_displayname_attribute self = Some k →
  is_Some (_cas_required_attributes self !! k) →
  ∀ r, _validate_ticket fromstring self ticket service_args ≠ Ok r.
Proof.
  intros Hdn [rv Hrv] r. unfold _validate_ticket.
  destruct (fetch_body self ticket service_args) as [body|e]; simpl; [|done].
  destruct (_parse_cas_response fromstring body) as [[user parsed]|e]; simpl;
    [|done].
  rewrite Hdn. simpl.
  assert (for_required (map_to_list (_cas_required_attributes self))
            (delete k parsed) = Raise Unauthorized) as ->; [|done].
  apply required_violation_iff. exists k, rv. split; [done|].
  left. apply lookup_delete_eq.
Qed.

(** C1 (the validator on a required display-name attribute). The response
    carries [displayName = Bob B]; the handler is configured with
    [displayName] both as the display-name attribute and as a presence-only
    required attribute. The parsed attributes hold [displayName] and pass
    the policy loop as parsed, yet [_validate_ticket] runs the loop on the
    map left by the pop and fails with [Unauthorized]. *)
Theorem C1_required_display_name_attribute_is_rejected :
  let fromstring := λ _ : string, Ok (response_with_attributes [display_name_bob]) in
  let self :=
    example_handler (Some "displayName") {[ "displayName" := None ]}
      (Ok EmptyString) (λ _, []) (Ok EmptyString) in
  _parse_cas_response fromstring EmptyString
    = Ok ("alice", {[ "displayName" := Some "Bob B" ]}) ∧
  for_required (map_to_list (_cas_required_attributes self))
    {[ "displayName" := Some "Bob B" ]} = Ok () ∧
  _validate_ticket fromstring self "T1" [] = Raise Unauthorized.
Proof. repeat split; vm_compute; reflexivity. Qed.

(** ** Partial downloads *)



(** ** The service parameter and the redirect URL *)

Lemma urlencode_service value :
  Urllib.urlencode [("service", value)] = "service=" +:+ Urllib.quote_plus value.
Proof. reflexivity. Qed.

(** The arguments are encoded in the dict's iteration order: the same pairs
    inserted in another order give another service parameter. *)
Lemma build_service_param_follows_insertion_order :
  let self := example_handler None ∅ (Ok EmptyString) (λ _, []) (Ok EmptyString) in
  _build_service_param self [("redirectUrl", "a"); ("session", "b")]
  = "https://matrix.example.org/_matrix/client/r0/login/cas/ticket?redirectUrl=a&session=b" ∧
  _build_service_param self [("session", "b"); ("redirectUrl", "a")]
  = "https://matrix.example.org/_matrix/client/r0/login/cas/ticket?session=b&redirectUrl=a".
Proof. split; reflexivity. Qed.

(** ** The callbacks given to the SSO handler *)

(** C8. [grandfather_existing_users] asks the store for the users matching
    [@fragment:hostname] case-insensitively, where [fragment] is the
    normalized remote username; it returns the first stored id of the answer,
    and [None] when the answer is empty. *)
Theorem C8_grandfather_returns_first_match
    (map_username_to_mxid_localpart : string → string) (self : CasHandler)
    (remote_user_id : string) (users : list (string * option string)) :
  get_users_by_id_case_insensitive self
    ("@" +:+ map_username_to_mxid_localpart remote_user_id +:+ ":" +:+
     _hostname self) = users →
  grandfather_existing_users map_username_to_mxid_localpart self
    remote_user_id () =
    match users with
    | [] => None
    | (registered_user_id, _) :: _ => Some registered_user_id
    end.
Proof.
  intros H. unfold grandfather_existing_users, UserID_to_string. rewrite H.
  by destruct users as [|[registered_user_id row] users'].
Qed.

Lemma C8_witness :
  lower "Alice" = "alice" ∧
  grandfather_existing_users lower
    (example_handler None ∅ (Ok EmptyString) legacy_store (Ok EmptyString))
    "Alice" ()
  = Some "@Alice:example.org".
Proof.
  split; [reflexivity|].
  exact (C8_grandfather_returns_first_match lower
           (example_handler None ∅ (Ok EmptyString) legacy_store (Ok EmptyString))
           "Alice" [("@Alice:example.org", None)] eq_refl).
Defined.

(** The callbacks [_map_cas_user_to_matrix_user] hands to the SSO handler. *)
Lemma map_cas_user_callbacks
    map_username_to_mxid_localpart self remote_user_id display_name
    user_agent ip_address :
  _map_cas_user_to_matrix_user map_username_to_mxid_localpart self
    remote_user_id display_name user_agent ip_address =
  get_mxid_from_sso self "cas" remote_user_id user_agent ip_address
    (cas_response_to_user_attributes map_username_to_mxid_localpart
       remote_user_id display_name)
    (grandfather_existing_users map_username_to_mxid_localpart self
       remote_user_id).
Proof. reflexivity. Qed.

(** C9. The attribute provider raises a [RuntimeError] for every failure
    count greater than zero; for the count zero it returns the normalized
    remote username as localpart together with the display name. *)
Theorem C9_attribute_provider_fails_on_retry
    (map_username_to_mxid_localpart : string → string)
    (remote_user_id : string) (display_name : option string) (failures : Z) :
  (0 < failures)%Z →
  cas_response_to_user_attributes map_username_to_mxid_localpart
    remote_user_id display_name failures
  = Raise (RuntimeError "CAS is not expected to de-duplicate Matrix IDs") ∧
  cas_response_to_user_attributes map_username_to_mxid_localpart
    remote_user_id display_name 0
  = Ok {| localpart := map_username_to_mxid_localpart remote_user_id;
          display_name := display_name |}.
Proof.
  intros Hpos. unfold cas_response_to_user_attributes. split.
  - rewrite bool_decide_eq_true_2; [done|lia].
  - done.
Qed.

Lemma C9_witness :
  cas_response_to_user_attributes lower "Alice" (Some "Alice A") 1
  = Raise (RuntimeError "CAS is not expected to de-duplicate Matrix IDs") ∧
  cas_response_to_user_attributes lower "Alice" (Some "Alice A") 0
  = Ok {| localpart := "alice"; display_name := Some "Alice A" |}.
Proof.
  apply (C9_attribute_provider_fails_on_retry lower "Alice" (Some "Alice A") 1).
  reflexivity.
Defined.

(** ** Dispatch *)

(** C10. Let the ticket validate and the user map to [user_id], with no
    (truthy) session given. With a non-empty [client_redirect_url] the
    assertion holds and [complete_sso_login] is called with that URL; with
    none, or an empty one, the assertion fails and no completion is called. *)
Theorem C10_fresh_login_needs_redirect_url
    fromstring map_username_to_mxid_localpart self request ticket
    client_redirect_url session username user_display_name user_id :
  Str.truthy session = None →
  _validate_ticket fromstring self ticket
    (ticket_args client_redirect_url session)
  = Ok (username, user_display_name) →
  _map_cas_user_to_matrix_user map_username_to_mxid_localpart self
    username user_display_name
    (get_user_agent request EmptyString) (get_ip_from_request request)
  = Ok user_id →
  (∀ url, client_redirect_url = Some url → url ≠ EmptyString →
     handle_ticket fromstring map_username_to_mxid_localpart self
       request ticket client_redirect_url session
     = Ok (complete_sso_login user_id url)) ∧
  (Str.truthy client_redirect_url = None →
     handle_ticket fromstring map_username_to_mxid_localpart self
       request ticket client_redirect_url session
     = Raise AssertionError).
Proof.
  intros Hsession Hvalid Hmap. unfold handle_ticket.
  rewrite Hvalid. simpl. rewrite Hmap, Hsession. split.
  - intros url -> Hurl. simpl.
    destruct (String.eqb url EmptyString) eqn:E; [|done].
    by apply String.eqb_eq in E.
  - by intros ->.
Qed.

Lemma C10_witness :
  handle_ticket (λ _, Ok response_alice) lower
    (example_handler None ∅ (Ok EmptyString) (λ _, []) (Ok "@alice:example.org"))
    {| user_agent_header := None; client_ip := "192.0.2.1" |}
    "T1" (Some "https://client.example/cb") None
  = Ok (complete_sso_login "@alice:example.org" "https://client.example/cb") ∧
  handle_ticket (λ _, Ok response_alice) lower
    (example_handler None ∅ (Ok EmptyString) (λ _, []) (Ok "@alice:example.org"))
    {| user_agent_header := None; client_ip := "192.0.2.1" |}
    "T1" None None
  = Raise AssertionError.
Proof.
  split.
  - refine (proj1 (C10_fresh_login_needs_redirect_url
              (λ _, Ok response_alice) lower
              (example_handler None ∅ (Ok EmptyString) (λ _, [])
                 (Ok "@alice:example.org"))
              {| user_agent_header := None; client_ip := "192.0.2.1" |}
              "T1" (Some "https://client.example/cb") None
              "alice" None "@alice:example.org" eq_refl _ eq_refl)
              "https://client.example/cb" eq_refl _).
    + vm_compute. reflexivity.
    + discriminate.
  - refine (proj2 (C10_fresh_login_needs_redirect_url
              (λ _, Ok response_alice) lower
              (example_handler None ∅ (Ok EmptyString) (λ _, [])
                 (Ok "@alice:example.org"))
              {| user_agent_header := None; client_ip := "192.0.2.1" |}
              "T1" None None
              "alice" None "@alice:example.org" eq_refl _ eq_refl) eq_refl).
    vm_compute. reflexivity.
Defined.

(** ** Quoting loses nothing *)

Lemma quote_plus_cons a s :
  Urllib.quote_plus (String a s) = quote_char a +:+ Urllib.quote_plus s.
Proof. reflexivity. Qed.

Lemma unquote_quote_char a rest :
  unquote_plus (quote_char a +:+ rest) = String a (unquote_plus rest).
Proof. destruct a as [[] [] [] [] [] [] [] []]; reflexivity. Qed.

Lemma unquote_plus_quote_plus s : unquote_plus (Urllib.quote_plus s) = s.
Proof.
  induction s as [|a s IH]; [done|].
  by rewrite quote_plus_cons, unquote_quote_char, IH.
Qed.

Lemma quote_plus_inj s1 s2 :
  Urllib.quote_plus s1 = Urllib.quote_plus s2 → s1 = s2.
Proof.
  intros H. rewrite <- (unquote_plus_quote_plus s1), H.
  apply unquote_plus_quote_plus.
Qed.

Lemma all_chars_app P s1 s2 :
  all_chars P (s1 +:+ s2) = all_chars P s1 && all_chars P s2.
Proof.
  induction s1 as [|a s1 IH]; simpl; [done|]. by rewrite IH, andb_assoc.
Qed.

Lemma all_chars_contains P s c :
  all_chars P s = true → Str.contains c s = true → P c = true.
Proof.
  induction s as [|a s IH]; simpl; [done|].
  intros [Ha Hs]%andb_true_iff [Hc|Hc]%orb_true_iff.
  - apply Ascii.eqb_eq in Hc. by subst.
  - by apply IH.
Qed.

Lemma quote_char_alphabet a : all_chars quoted_alphabet (quote_char a) = true.
Proof. destruct a as [[] [] [] [] [] [] [] []]; reflexivity. Qed.

Lemma quote_plus_alphabet s :
  all_chars quoted_alphabet (Urllib.quote_plus s) = true.
Proof.
  induction s as [|a s IH]; [done|].
  by rewrite quote_plus_cons, all_chars_app, quote_char_alphabet, IH.
Qed.

Lemma quote_plus_avoids c s :
  quoted_alphabet c = false → Str.contains c (Urllib.quote_plus s) = false.
Proof.
  intros Hc. destruct (Str.contains c (Urllib.quote_plus s)) eqn:H; [|done].
  rewrite (all_chars_contains _ _ _ (quote_plus_alphabet s) H) in Hc. done.
Qed.

(** ** Distinct arguments give distinct service parameters *)

Lemma join_cons_cons sep x y l :
  Urllib.join sep (x :: y :: l) = x +:+ sep +:+ Urllib.join sep (y :: l).
Proof. reflexivity. Qed.

Lemma split_join c l :
  l ≠ [] → Forall (λ p, Str.contains c p = false) l →
  Str.split c (Urllib.join (String c EmptyString) l) = l.
Proof.
  intros Hne Hall. induction Hall as [|x l Hx Hl IH]; [done|].
  destruct l as [|y l].
  - simpl. by apply split_no_sep.
  - rewrite join_cons_cons.
    change (String c EmptyString +:+ Urllib.join (String c EmptyString) (y :: l))
      with (String c (Urllib.join (String c EmptyString) (y :: l))).
    rewrite split_app by done. by rewrite IH.
Qed.

Lemma contains_join_head c sep x l :
  Str.contains c x = true → Str.contains c (Urllib.join sep (x :: l)) = true.
Proof.
  intros Hx. destruct l as [|y l]; [done|].
  by rewrite join_cons_cons, contains_app, Hx.
Qed.

(** One [key=value] piece of [urlencode]. *)
Lemma pair_piece_inj (kv1 kv2 : string * string) :
  Urllib.quote_plus kv1.1 +:+ "=" +:+ Urllib.quote_plus kv1.2 =
  Urllib.quote_plus kv2.1 +:+ "=" +:+ Urllib.quote_plus kv2.2 →
  kv1 = kv2.
Proof.
  destruct kv1 as [k1 v1], kv2 as [k2 v2]. simpl. intros H.
  apply (f_equal (Str.split "=")) in H.
  change (?a +:+ "=" +:+ ?b) with (a +:+ String "=" b) in H.
  rewrite !split_app, !split_no_sep in H by (by apply quote_plus_avoids).
  injection H as Hk Hv.
  by rewrite (quote_plus_inj _ _ Hk), (quote_plus_inj _ _ Hv).
Qed.

Lemma pair_piece_no_amp (kv : string * string) :
  Str.contains "&"
    (Urllib.quote_plus kv.1 +:+ "=" +:+ Urllib.quote_plus kv.2) = false.
Proof.
  rewrite !contains_app, !quote_plus_avoids by done. done.
Qed.

Lemma pair_piece_has_eq (kv : string * string) :
  Str.contains "="
    (Urllib.quote_plus kv.1 +:+ "=" +:+ Urllib.quote_plus kv.2) = true.
Proof. rewrite !contains_app. simpl. by rewrite orb_true_r. Qed.

Lemma urlencode_inj query1 query2 :
  Urllib.urlencode query1 = Urllib.urlencode query2 → query1 = query2.
Proof.
  unfold Urllib.urlencode.
  set (piece := λ kv : string * string,
         Urllib.quote_plus kv.1 +:+ "=" +:+ Urllib.quote_plus kv.2).
  intros H.
  assert (Hamp : ∀ q, Forall (λ p, Str.contains "&" p = false) (map piece q)).
  { intros q. apply Forall_fmap, Forall_forall. intros kv _.
    apply pair_piece_no_amp. }
  assert (Hmap : map piece query1 = map piece query2).
  { destruct query1 as [|kv1 q1], query2 as [|kv2 q2]; [done| | |].
    - apply (f_equal (Str.contains "=")) in H. simpl map in H.
      rewrite (contains_join_head _ _ _ _ (pair_piece_has_eq kv2)) in H. done.
    - apply (f_equal (Str.contains "=")) in H. simpl map in H.
      rewrite (contains_join_head _ _ _ _ (pair_piece_has_eq kv1)) in H. done.
    - rewrite <- (split_join "&" (map piece (kv1 :: q1))) by done.
      rewrite <- (split_join "&" (map piece (kv2 :: q2))) by done.
      by rewrite H. }
  clear H Hamp. revert query2 Hmap.
  induction query1 as [|kv1 q1 IH]; intros [|kv2 q2] Hmap; try done.
  simpl in Hmap. injection Hmap as Hkv Hq.
  by rewrite (pair_piece_inj _ _ Hkv), (IH _ Hq).
Qed.

(** C6, as stated, fails: two dicts with the same keys and values, hence
    equal, but filled in another order, give different service parameters. *)
Lemma C6_counterexample :
  dict_eq [("redirectUrl", "a"); ("session", "b")]
          [("session", "b"); ("redirectUrl", "a")] ∧
  _build_service_param
    (example_handler None ∅ (Ok EmptyString) (λ _, []) (Ok EmptyString))
    [("redirectUrl", "a"); ("session", "b")] ≠
  _build_service_param
    (example_handler None ∅ (Ok EmptyString) (λ _, []) (Ok EmptyString))
    [("session", "b"); ("redirectUrl", "a")].
Proof.
  split; [split; [|split]|].
  - compute_done.
  - compute_done.
  - vm_compute. reflexivity.
  - vm_compute. discriminate.
Qed.

(** C6 (amended). [_build_service_param] depends on nothing but the
    configured service URL and its argument, order included: two handlers
    with the same service URL produce the same string if and only if the two
    argument dicts hold the same pairs in the same insertion order.
    [get_redirect_url] is the CAS server URL, [/login?service=] and the
    quoted service parameter. *)
Theorem C6_service_param_same_iff_same_ordered_args
    (self1 self2 : CasHandler) (args1 args2 : list (string * string)) :
  _cas_service_url self1 = _cas_service_url self2 →
  (_build_service_param self1 args1 = _build_service_param self2 args2 ↔
   args1 = args2) ∧
  get_redirect_url self1 args1 =
    _cas_server_url self1 +:+ "/login?service=" +:+
    Urllib.quote_plus (_build_service_param self1 args1).
Proof.
  intros Hurl. split; [split|].
  - unfold _build_service_param. rewrite Hurl. intros H.
    do 3 apply String.app_inj in H. by apply urlencode_inj.
  - intros ->. unfold _build_service_param. by rewrite Hurl.
  - unfold get_redirect_url. by rewrite urlencode_service.
Qed.

Lemma C6_witness :
  _build_service_param
    (example_handler None ∅ (Ok EmptyString) (λ _, []) (Ok EmptyString))
    [("redirectUrl", "https://client.example/cb")]
  = _build_service_param
      (example_handler (Some "displayName") {[ "department" := None ]}
         (Raise (OtherError "TimeoutError")) legacy_store (Ok "@bob:example.org"))
      [("redirectUrl", "https://client.example/cb")] ∧
  get_redirect_url
    (example_handler None ∅ (Ok EmptyString) (λ _, []) (Ok EmptyString))
    [("redirectUrl", "https://client.example/cb")]
  = "https://cas.example.org/login?service=https%3A%2F%2Fmatrix.example.org%2F_matrix%2Fclient%2Fr0%2Flogin%2Fcas%2Fticket%3FredirectUrl%3Dhttps%253A%252F%252Fclient.example%252Fcb".
Proof.
  pose proof (C6_service_param_same_iff_same_ordered_args
                (example_handler None ∅ (Ok EmptyString) (λ _, []) (Ok EmptyString))
                (example_handler (Some "displayName") {[ "department" := None ]}
                   (Raise (OtherError "TimeoutError")) legacy_store
                   (Ok "@bob:example.org"))
                [("redirectUrl", "https://client.example/cb")]
                [("redirectUrl", "https://client.example/cb")]
                eq_refl) as [Hiff Hurl].
  split; [exact (proj2 Hiff eq_refl)|exact Hurl].
Defined.

(** X1. The service parameter determines the arguments: two argument dicts
    give the same service parameter only if they hold the same pairs in the
    same order, and likewise for the redirect URL. *)
Theorem X1_service_param_injective
    (self : CasHandler) (args1 args2 : list (string * string)) :
  (_build_service_param self args1 = _build_service_param self args2 ↔
   args1 = args2) ∧
  (get_redirect_url self args1 = get_redirect_url self args2 ↔ args1 = args2).
Proof.
  assert (Hbuild :
    _build_service_param self args1 = _build_service_param self args2 →
    args1 = args2).
  { unfold _build_service_param. intros H.
    do 3 apply String.app_inj in H. by apply urlencode_inj. }
  split; (split; [|by intros ->]); [done|].
  unfold get_redirect_url. rewrite !urlencode_service. intros H.
  do 2 apply String.app_inj in H.
  change ("service=" +:+ ?q) with ("service" +:+ "=" +:+ q) in H.
  apply Hbuild, quote_plus_inj.
  by do 2 apply String.app_inj in H.
Qed.


(** ** What a parsed response holds *)

Lemma find_user_origin l user :
  find_user l user = user ∨
  ∃ child, child ∈ l ∧ Str.endswith (tag child) "user" = true ∧
           text child = find_user l user.
Proof.
  revert user. induction l as [|c l IH]; intros user; simpl; [by left|].
  destruct (Str.endswith (tag c) "user") eqn:Hc.
  - right. destruct (IH (text c)) as [->|(child & Hin & Hu & Ht)].
    + exists c. split; [by left|done].
    + exists child. split; [by right|done].
  - destruct (IH user) as [->|(child & Hin & Hu & Ht)]; [by left|].
    right. exists child. split; [by right|done].
Qed.

Lemma parse_ok_inv fromstring body user attributes :
  _parse_cas_response fromstring body = Ok (user, attributes) →
  ∃ root root0 rest,
    fromstring body = Ok root ∧
    Str.endswith (tag root) "serviceResponse" = true ∧
    children root = root0 :: rest ∧
    Str.endswith (tag root0) "authenticationSuccess" = true ∧
    for_child (children root0) None ∅ = Ok (Some user, attributes).
Proof.
  intros H. destruct (fromstring body) as [root|e] eqn:Hroot.
  - rewrite (parse_root _ _ _ Hroot) in H.
    destruct (Str.endswith (tag root) "serviceResponse") eqn:Htag; [|done].
    simpl in H. destruct (children root) as [|root0 rest] eqn:Hch; [done|].
    destruct (for_child (children root0) None ∅)
      as [[[u|] a]|e] eqn:Hfor; try done.
    destruct (Str.endswith (tag root0) "authenticationSuccess") eqn:Hs; [|done].
    injection H as -> ->. by exists root, root0, rest.
  - unfold _parse_cas_response, try_parse in H. by rewrite Hroot in H.
Qed.

(** X3. A user returned by the parser is in the response: the root's tag
    ends with [serviceResponse], its first child's tag ends with
    [authenticationSuccess], and one of that child's children has a tag
    ending with [user] and the returned user as its text. *)
Theorem X3_parsed_user_occurs_in_response
    (fromstring : string → result Element) (body user : string)
    (attributes : gmap string (option string)) :
  _parse_cas_response fromstring body = Ok (user, attributes) →
  ∃ root root0 rest child,
    fromstring body = Ok root ∧
    Str.endswith (tag root) "serviceResponse" = true ∧
    children root = root0 :: rest ∧
    Str.endswith (tag root0) "authenticationSuccess" = true ∧
    child ∈ children root0 ∧
    Str.endswith (tag child) "user" = true ∧
    text child = Some user.
Proof.
  intros H.
  destruct (parse_ok_inv _ _ _ _ H) as (root & root0 & rest & Hroot & Htag & Hch & Hs & Hfor).
  destruct (for_child_find_user (children root0) None ∅) as [a Hfind].
  rewrite Hfind in Hfor. injection Hfor as Hu _.
  destruct (find_user_origin (children root0) None) as [Hnone|(child & Hin & Hc & Ht)].
  - rewrite Hnone in Hu. done.
  - exists root, root0, rest, child. rewrite Ht, Hu. done.
Qed.

Lemma X3_witness :
  ∃ root root0 rest child,
    Ok response_alice = Ok root ∧
    Str.endswith (tag root) "serviceResponse" = true ∧
    children root = root0 :: rest ∧
    Str.endswith (tag root0) "authenticationSuccess" = true ∧
    child ∈ children root0 ∧
    Str.endswith (tag child) "user" = true ∧
    text child = Some "alice".
Proof.
  apply (X3_parsed_user_occurs_in_response
           (λ _, Ok response_alice) EmptyString "alice" ∅).
  vm_compute. reflexivity.
Defined.

Lemma parse_raises fromstring body e :
  _parse_cas_response fromstring body = Raise e →
  e = InvalidCasResponse ∨ e = UnsuccessfulCasResponse.
Proof.
  unfold _parse_cas_response.
  destruct (try_parse fromstring body) as [[[success user] attributes]|e'].
  - destruct success; simpl; [done|]. intros [= <-]. by right.
  - intros [= <-]. by left.
Qed.

(** X4. Whatever goes wrong in the parser, the caller sees one of two login
    errors, both with status 401 and the code [UNAUTHORIZED]: the exception of
    the XML parser, the [IndexError] of a root without children and the
    parser's own exceptions are all turned into the invalid-response error. *)
Theorem X4_parser_raises_only_login_errors
    (fromstring : string → result Element) (body : string) (e : exn) :
  _parse_cas_response fromstring body = Raise e →
  (e = InvalidCasResponse ∨ e = UnsuccessfulCasResponse) ∧
  ∃ msg, e = LoginError 401 msg UNAUTHORIZED.
Proof.
  intros H. destruct (parse_raises _ _ _ H) as [->| ->]; split; eauto.
Qed.

Lemma X4_witness :
  (InvalidCasResponse = InvalidCasResponse ∨
   InvalidCasResponse = UnsuccessfulCasResponse) ∧
  ∃ msg, InvalidCasResponse = LoginError 401 msg UNAUTHORIZED.
Proof.
  apply (X4_parser_raises_only_login_errors
           (λ _, Raise (OtherError "ParseError")) "not xml").
  reflexivity.
Defined.

(** X5. The parser reads the root's tag and the root's first child only: two
    roots with the same tag and the same first child parse alike, whatever
    their text and their further children are. *)
Theorem X5_parser_reads_first_child_only
    (fromstring1 fromstring2 : string → result Element) (body1 body2 : string)
    (root1 root2 root0 : Element) (rest1 rest2 : list Element) :
  fromstring1 body1 = Ok root1 → fromstring2 body2 = Ok root2 →
  tag root1 = tag root2 →
  children root1 = root0 :: rest1 → children root2 = root0 :: rest2 →
  _parse_cas_response fromstring1 body1 = _parse_cas_response fromstring2 body2.
Proof.
  intros H1 H2 Htag Hch1 Hch2.
  by rewrite (parse_root _ _ _ H1), (parse_root _ _ _ H2), Htag, Hch1, Hch2.
Qed.

Lemma X5_witness :
  _parse_cas_response (λ _, Ok response_failure_with_user) EmptyString =
  _parse_cas_response
    (λ _, Ok (mkElement (cas "serviceResponse") (Some "text")
                [mkElement (cas "authenticationFailure") None [user_alice];
                 mkElement (cas "authenticationSuccess") None [user_alice]]))
    EmptyString.
Proof.
  apply (X5_parser_reads_first_child_only
           (λ _, Ok response_failure_with_user)
           (λ _, Ok (mkElement (cas "serviceResponse") (Some "text")
                [mkElement (cas "authenticationFailure") None [user_alice];
                 mkElement (cas "authenticationSuccess") None [user_alice]]))
           EmptyString EmptyString
           response_failure_with_user
           (mkElement (cas "serviceResponse") (Some "text")
                [mkElement (cas "authenticationFailure") None [user_alice];
                 mkElement (cas "authenticationSuccess") None [user_alice]])
           (mkElement (cas "authenticationFailure") None [user_alice])
           [] [mkElement (cas "authenticationSuccess") None [user_alice]]);
    reflexivity.
Defined.

(** ** The attribute map *)

Lemma for_attribute_app l1 l2 attributes :
  for_attribute (l1 ++ l2) attributes =
  for_attribute l1 attributes ≫= for_attribute l2.
Proof.
  revert attributes. induction l1 as [|x l1 IH]; intros attributes; [done|].
  simpl. destruct (attribute_key (tag x)) as [key|e]; simpl; [apply IH|done].
Qed.

Lemma for_attribute_other_keys l attributes attributes' k :
  Forall (λ y, attribute_key (tag y) ≠ Ok k) l →
  for_attribute l attributes = Ok attributes' →
  attributes' !! k = attributes !! k.
Proof.
  intros Hall. revert attributes.
  induction Hall as [|x l Hx _ IH]; intros attributes; simpl.
  - by intros [= ->].
  - destruct (attribute_key (tag x)) as [key|e]; simpl; [|done].
    intros H. rewrite (IH _ H). apply lookup_insert_ne. congruence.
Qed.

(** X6. The attribute loop keeps, for each key, the text of the last element
    stored under that key: an element with key [k] followed by no other
    element of that key leaves its text at [k], and a key that no element
    has keeps the value it had. *)
Theorem X6_last_attribute_element_wins
    (l : list Element) (attributes attributes' : gmap string (option string))
    (k : string) :
  for_attribute l attributes = Ok attributes' →
  (Forall (λ y, attribute_key (tag y) ≠ Ok k) l →
   attributes' !! k = attributes !! k) ∧
  (∀ before x after,
     l = before ++ x :: after →
     attribute_key (tag x) = Ok k →
     Forall (λ y, attribute_key (tag y) ≠ Ok k) after →
     attributes' !! k = Some (text x)).
Proof.
  intros H. split.
  - intros Hall. by apply (for_attribute_other_keys l).
  - intros before x after -> Hx Hafter.
    rewrite for_attribute_app in H.
    destruct (for_attribute before attributes) as [a1|e]; simpl in H; [|done].
    rewrite Hx in H. simpl in H.
    rewrite (for_attribute_other_keys _ _ _ _ Hafter H).
    apply lookup_insert_eq.
Qed.

Lemma X6_witness :
  (<["email" := None]>
     (<["department" := Some "eng"]>
        (<["department" := Some "sales"]> ∅)) : gmap string (option string))
    !! "department" = Some (Some "eng").
Proof.
  refine (proj2 (X6_last_attribute_element_wins
                   [mkElement (cas "department") (Some "sales") [];
                    mkElement "department" (Some "eng") [];
                    mkElement (cas "email") None []]
                   ∅ _ "department" _)
            [mkElement (cas "department") (Some "sales") []]
            (mkElement "department" (Some "eng") [])
            [mkElement (cas "email") None []]
            eq_refl eq_refl _).
  - reflexivity.
  - repeat constructor. discriminate.
Defined.

Lemma split_pieces_no_sep c s :
  Forall (λ p, Str.contains c p = false) (Str.split c s).
Proof.
  induction s as [|a s IH]; simpl; [by repeat constructor|].
  destruct (Ascii.eqb a c) eqn:Ha; [by constructor|].
  destruct (Str.split c s) as [|w ws]; [by repeat constructor; simpl; rewrite Ha|].
  inversion IH as [|? ? Hw Hws]; subst. constructor; [|done].
  simpl. by rewrite Ha.
Qed.

Lemma attribute_key_has_no_brace tag key :
  attribute_key tag = Ok key → Str.contains "}" key = false.
Proof.
  unfold attribute_key. destruct (Str.contains "}" tag) eqn:Htag.
  - unfold Str.index. destruct (Str.split "}" tag !! 1) as [p|] eqn:Hp; [|done].
    intros [= <-].
    by apply (Forall_lookup_1 _ _ _ _ (split_pieces_no_sep "}" tag) Hp).
  - by intros [= <-].
Qed.

Lemma for_attribute_braced_key l attributes attributes' k :
  Str.contains "}" k = true →
  for_attribute l attributes = Ok attributes' →
  attributes' !! k = attributes !! k.
Proof.
  intros Hk. apply for_attribute_other_keys, Forall_forall.
  intros y _ Hy. apply attribute_key_has_no_brace in Hy. congruence.
Qed.

Lemma for_child_braced_key l user attributes user' attributes' k :
  Str.contains "}" k = true →
  for_child l user attributes = Ok (user', attributes') →
  attributes' !! k = attributes !! k.
Proof.
  intros Hk. revert user attributes.
  induction l as [|child l IH]; intros user attributes; simpl.
  - by intros [= _ ->].
  - destruct (Str.endswith (tag child) "attributes"); simpl; [|apply IH].
    destruct (for_attribute (children child) attributes) as [a1|e] eqn:Ha;
      simpl; [|done].
    intros H. rewrite (IH _ _ H). by apply (for_attribute_braced_key _ _ _ _ Hk Ha).
Qed.

(** X7. No key of the parsed attributes holds a closing brace: a name with
    a closing brace is absent from the attributes of every parsed
    response. *)
Theorem X7_parsed_keys_have_no_brace
    (fromstring : string → result Element) (body user : string)
    (attributes : gmap string (option string)) (k : string) :
  _parse_cas_response fromstring body = Ok (user, attributes) →
  Str.contains "}" k = true →
  attributes !! k = None.
Proof.
  intros H Hk.
  destruct (parse_ok_inv _ _ _ _ H) as (root & root0 & rest & _ & _ & _ & _ & Hfor).
  by rewrite (for_child_braced_key _ _ _ _ _ _ Hk Hfor).
Qed.

Lemma X7_witness :
  ({[ "department" := Some "eng" ]} : gmap string (option string))
    !! "{http://www.yale.edu/tp/cas}department" = None.
Proof.
  apply (X7_parsed_keys_have_no_brace
           (λ _, Ok (response_with_attributes
                       [mkElement (cas "department") (Some "eng") []]))
           EmptyString "alice").
  - vm_compute. reflexivity.
  - reflexivity.
Defined.

(** ** Outcomes of the validator *)

Lemma fetch_body_cases self ticket service_args :
  (∃ body, fetch_body self ticket service_args = Ok body) ∨
  (∃ e, fetch_body self ticket service_args = Raise e ∧
        get_raw self (_cas_server_url self +:+ "/proxyValidate")
          [("ticket", ticket);
           ("service", _build_service_param self service_args)] = Raise e ∧
        ∀ response, e ≠ PartialDownloadError response).
Proof.
  unfold fetch_body.
  destruct (get_raw self _ _) as [body|e]; [by eauto|].
  destruct e; try (right; by eauto). by eauto.
Qed.

(** X8. A failure of [_validate_ticket] is one of the three 401 login errors
    (unauthorized, invalid response, unsuccessful response), or it is the
    exception [get_raw] raised for the validation request, which is then no
    [PartialDownloadError]. *)
Theorem X8_validate_ticket_failures
    fromstring self ticket service_args (e : exn) :
  _validate_ticket fromstring self ticket service_args = Raise e →
  (e = Unauthorized ∨ e = InvalidCasResponse ∨ e = UnsuccessfulCasResponse) ∨
  (get_raw self (_cas_server_url self +:+ "/proxyValidate")
     [("ticket", ticket); ("service", _build_service_param self service_args)]
   = Raise e ∧
   ∀ response, e ≠ PartialDownloadError response).
Proof.
  unfold _validate_ticket.
  destruct (fetch_body_cases self ticket service_args)
    as [[body ->]|(e0 & -> & Hraw & Hne)]; simpl.
  - destruct (_parse_cas_response fromstring body) as [[user parsed]|e1] eqn:Hp;
      simpl.
    + destruct (pop parsed (_cas_displayname_attribute self)) as [dn attrs].
      destruct (for_required_cases
                  (map_to_list (_cas_required_attributes self)) attrs) as [H|H];
        rewrite H; simpl; [done|]. intros [= <-]. by auto.
    + intros [= <-]. left.
      destruct (parse_raises _ _ _ Hp) as [->| ->]; by auto.
  - intros [= <-]. by right.
Qed.

Lemma X8_witness :
  (OtherError "TimeoutError" = Unauthorized ∨
   OtherError "TimeoutError" = InvalidCasResponse ∨
   OtherError "TimeoutError" = UnsuccessfulCasResponse) ∨
  (Raise (OtherError "TimeoutError") = Raise (OtherError "TimeoutError")
     :> result string) ∧
  ∀ response, OtherError "TimeoutError" ≠ PartialDownloadError response.
Proof.
  apply (X8_validate_ticket_failures (λ _, Ok response_alice)
           (example_handler None ∅ (Raise (OtherError "TimeoutError"))
              (λ _, []) (Ok EmptyString))
           "T1" []).
  reflexivity.
Defined.

(** X9. [_validate_ticket] asks the HTTP client one thing only, the
    validation request: a client that answers that request alike gives the
    same outcome. *)
Theorem X9_validate_ticket_one_request
    fromstring self
    (g : string → list (string * string) → result string)
    ticket service_args :
  g (_cas_server_url self +:+ "/proxyValidate")
    [("ticket", ticket); ("service", _build_service_param self service_args)]
  = get_raw self (_cas_server_url self +:+ "/proxyValidate")
      [("ticket", ticket); ("service", _build_service_param self service_args)] →
  _validate_ticket fromstring (with_get_raw self g) ticket service_args =
  _validate_ticket fromstring self ticket service_args.
Proof.
  intros H. unfold _validate_ticket, fetch_body.
  change (get_raw (with_get_raw self g)) with g.
  change (_cas_server_url (with_get_raw self g)) with (_cas_server_url self).
  change (_build_service_param (with_get_raw self g) service_args)
    with (_build_service_param self service_args).
  by rewrite H.
Qed.

Lemma X9_witness :
  _validate_ticket (λ _, Ok response_alice)
    (with_get_raw
       (example_handler None ∅ (Ok "body") (λ _, []) (Ok EmptyString))
       (λ uri _, if String.eqb uri "https://cas.example.org/proxyValidate"
                 then Ok "body" else Raise (OtherError "unexpected request")))
    "T1" [] =
  _validate_ticket (λ _, Ok response_alice)
    (example_handler None ∅ (Ok "body") (λ _, []) (Ok EmptyString))
    "T1" [].
Proof.
  apply (X9_validate_ticket_one_request (λ _, Ok response_alice)
           (example_handler None ∅ (Ok "body") (λ _, []) (Ok EmptyString))
           (λ uri _, if String.eqb uri "https://cas.example.org/proxyValidate"
                     then Ok "body" else Raise (OtherError "unexpected request"))
           "T1" []).
  reflexivity.
Defined.

(** X10. With no required attribute configured, a ticket whose response is
    fetched and parsed validates: the result is the parsed user and the value
    of the display-name attribute, [None] when no such attribute is configured
    or the response has none. *)
Theorem X10_no_required_attributes
    fromstring self ticket service_args body user parsed :
  _cas_required_attributes self = ∅ →
  fetch_body self ticket service_args = Ok body →
  _parse_cas_response fromstring body = Ok (user, parsed) →
  _validate_ticket fromstring self ticket service_args =
    Ok (user,
        match _cas_displayname_attribute self with
        | Some k => match parsed !! k with Some v => v | None => None end
        | None => None
        end).
Proof.
  intros Hreq Hfetch Hparse.
  rewrite (validate_ticket_parsed _ _ _ _ _ _ _ Hfetch Hparse), Hreq.
  rewrite map_to_list_empty. simpl.
  destruct (_cas_displayname_attribute self) as [k|]; simpl; [|done].
  by destruct (parsed !! k).
Qed.

Lemma X10_witness :
  _validate_ticket (λ _, Ok (response_with_attributes [display_name_bob]))
    (example_handler (Some "displayName") ∅ (Ok "body") (λ _, [])
       (Ok EmptyString))
    "T1" []
  = Ok ("alice", Some "Bob B").
Proof.
  exact (X10_no_required_attributes
           (λ _, Ok (response_with_attributes [display_name_bob]))
           (example_handler (Some "displayName") ∅ (Ok "body") (λ _, [])
              (Ok EmptyString))
           "T1" [] "body" "alice" {[ "displayName" := Some "Bob B" ]}
           eq_refl eq_refl eq_refl).
Defined.

(** X11. Dropping requirements never turns an accepted ticket into a
    rejected one: a ticket that validates under a policy validates, with the
    same result, under every policy contained in it. *)
Theorem X11_smaller_policy_accepts
    fromstring self (required : gmap string (option string))
    ticket service_args (r : string * option string) :
  required ⊆ _cas_required_attributes self →
  _validate_ticket fromstring self ticket service_args = Ok r →
  _validate_ticket fromstring (with_required_attributes self required)
    ticket service_args = Ok r.
Proof.
  intros Hsub. unfold _validate_ticket.
  change (fetch_body (with_required_attributes self required))
    with (fetch_body self).
  destruct (fetch_body self ticket service_args) as [body|e]; simpl; [|done].
  destruct (_parse_cas_response fromstring body) as [[user parsed]|e]; simpl;
    [|done].
  change (_cas_displayname_attribute (with_required_attributes self required))
    with (_cas_displayname_attribute self).
  change (_cas_required_attributes (with_required_attributes self required))
    with required.
  destruct (pop parsed (_cas_displayname_attribute self)) as [dn attrs].
  destruct (for_required_cases
              (map_to_list (_cas_required_attributes self)) attrs) as [H|H];
    rewrite H; simpl; [|done].
  intros [= <-].
  destruct (for_required_cases (map_to_list required) attrs) as [H'|H'];
    rewrite H'; simpl; [done|].
  apply required_violation_iff in H' as (k & rv & Hk & Hv).
  assert (for_required (map_to_list (_cas_required_attributes self)) attrs
          = Raise Unauthorized) as Hbad.
  { apply required_violation_iff. exists k, rv. split; [|done].
    by apply (lookup_weaken _ _ _ _ Hk). }
  rewrite Hbad in H. done.
Qed.

Lemma X11_witness :
  _validate_ticket
    (λ _, Ok (response_with_attributes
                [mkElement (cas "department") (Some "eng") []]))
    (with_required_attributes
       (example_handler None
          {[ "department" := Some "eng" ]} (Ok "body") (λ _, [])
          (Ok EmptyString))
       ∅)
    "T1" []
  = Ok ("alice", None).
Proof.
  refine (X11_smaller_policy_accepts
            (λ _, Ok (response_with_attributes
                        [mkElement (cas "department") (Some "eng") []]))
            (example_handler None
               {[ "department" := Some "eng" ]} (Ok "body") (λ _, [])
               (Ok EmptyString))
            ∅ "T1" [] ("alice", None) _ _).
  - apply map_empty_subseteq.
  - vm_compute. reflexivity.
Defined.

(** ** Outcomes of [handle_ticket] *)

Lemma truthy_Some o s :
  Str.truthy o = Some s ↔ o = Some s ∧ s ≠ EmptyString.
Proof.
  unfold Str.truthy. destruct o as [t|]; [|by split; [|intros [? _]]].
  destruct (String.eqb t EmptyString) eqn:E.
  - apply String.eqb_eq in E. subst. split; [done|]. by intros [[= <-] ?].
  - apply String.eqb_neq in E. split.
    + by intros [= <-].
    + by intros [[= <-] _].
Qed.

(** X12. With a non-empty session, a ticket that validates and maps to
    [user_id] completes the UI-auth session for that user, whether or not a
    redirect URL came with the request; the login completion is not called. *)
Theorem X12_session_completes_ui_auth
    fromstring map_username_to_mxid_localpart self request ticket
    client_redirect_url s username user_display_name user_id :
  s ≠ EmptyString →
  _validate_ticket fromstring self ticket
    (ticket_args client_redirect_url (Some s))
  = Ok (username, user_display_name) →
  _map_cas_user_to_matrix_user map_username_to_mxid_localpart self
    username user_display_name
    (get_user_agent request EmptyString) (get_ip_from_request request)
  = Ok user_id →
  handle_ticket fromstring map_username_to_mxid_localpart self
    request ticket client_redirect_url (Some s)
  = Ok (complete_sso_ui_auth user_id s).
Proof.
  intros Hs Hvalid Hmap. unfold handle_ticket.
  rewrite Hvalid. simpl. rewrite Hmap.
  by destruct (String.eqb_spec s EmptyString).
Qed.

Lemma X12_witness :
  handle_ticket (λ _, Ok (response_with_attributes [display_name_bob])) lower
    (example_handler (Some "displayName") ∅ (Ok "body") (λ _, [])
       (Ok "@bob:example.org"))
    {| user_agent_header := Some "Mozilla/5.0"; client_ip := "192.0.2.1" |}
    "T1" (Some "https://client.example/cb") (Some "sessionid")
  = Ok (complete_sso_ui_auth "@bob:example.org" "sessionid").
Proof.
  refine (X12_session_completes_ui_auth
            (λ _, Ok (response_with_attributes [display_name_bob])) lower
            (example_handler (Some "displayName") ∅ (Ok "body") (λ _, [])
               (Ok "@bob:example.org"))
            {| user_agent_header := Some "Mozilla/5.0"; client_ip := "192.0.2.1" |}
            "T1" (Some "https://client.example/cb") "sessionid"
            "alice" (Some "Bob B") "@bob:example.org" _ _ eq_refl).
  - discriminate.
  - vm_compute. reflexivity.
Defined.

(** X13. When the ticket validates and the mapping raises, a
    [MappingException] is answered by rendering the [mapping_error] page with
    the exception's message and nothing is raised; any other exception of the
    mapping is raised by [handle_ticket]. Neither completion is called. *)
Theorem X13_mapping_failure
    fromstring map_username_to_mxid_localpart self request ticket
    client_redirect_url session username user_display_name (e : exn) :
  _validate_ticket fromstring self ticket
    (ticket_args client_redirect_url session)
  = Ok (username, user_display_name) →
  _map_cas_user_to_matrix_user map_username_to_mxid_localpart self
    username user_display_name
    (get_user_agent request EmptyString) (get_ip_from_request request)
  = Raise e →
  handle_ticket fromstring map_username_to_mxid_localpart self
    request ticket client_redirect_url session
  = match e with
    | MappingException msg => Ok (render_error "mapping_error" msg)
    | _ => Raise e
    end.
Proof.
  intros Hvalid Hmap. unfold handle_ticket.
  rewrite Hvalid. simpl. rewrite Hmap. by destruct e.
Qed.

Lemma X13_witness :
  handle_ticket (λ _, Ok response_alice) lower
    (example_handler None ∅ (Ok "body") (λ _, [])
       (Raise (MappingException "localpart is invalid")))
    {| user_agent_header := None; client_ip := "192.0.2.1" |}
    "T1" (Some "https://client.example/cb") None
  = Ok (render_error "mapping_error" "localpart is invalid").
Proof.
  refine (X13_mapping_failure (λ _, Ok response_alice) lower
            (example_handler None ∅ (Ok "body") (λ _, [])
               (Raise (MappingException "localpart is invalid")))
            {| user_agent_header := None; client_ip := "192.0.2.1" |}
            "T1" (Some "https://client.example/cb") None
            "alice" None (MappingException "localpart is invalid") _ eq_refl).
  vm_compute. reflexivity.
Defined.

(** X14. A ticket that does not validate ends [handle_ticket] with the
    validator's exception: no error page is rendered and no completion is
    called, whatever the SSO handler would answer. *)
Theorem X14_validation_failure_is_raised
    fromstring map_username_to_mxid_localpart self request ticket
    client_redirect_url session (e : exn) :
  _validate_ticket fromstring self ticket
    (ticket_args client_redirect_url session) = Raise e →
  handle_ticket fromstring map_username_to_mxid_localpart self
    request ticket client_redirect_url session = Raise e.
Proof. intros H. unfold handle_ticket. by rewrite H. Qed.

Lemma X14_witness :
  handle_ticket (λ _, Ok response_failure_with_user) lower
    (example_handler None ∅ (Ok "body") (λ _, [])
       (Raise (MappingException "never asked")))
    {| user_agent_header := None; client_ip := "192.0.2.1" |}
    "T1" (Some "https://client.example/cb") None
  = Raise UnsuccessfulCasResponse.
Proof.
  refine (X14_validation_failure_is_raised
            (λ _, Ok response_failure_with_user) lower
            (example_handler None ∅ (Ok "body") (λ _, [])
               (Raise (MappingException "never asked")))
            {| user_agent_header := None; client_ip := "192.0.2.1" |}
            "T1" (Some "https://client.example/cb") None
            UnsuccessfulCasResponse _).
  vm_compute. reflexivity.
Defined.

(** X15. What a call made by [handle_ticket] tells about the request: the
    login completion is called only without a (non-empty) session and with
    the request's non-empty redirect URL; the UI-auth completion only with
    the request's non-empty session; the only error page is [mapping_error];
    and each completion comes after a validated ticket mapped to the user
    it is called for. *)
Theorem X15_completion_inversion
    fromstring map_username_to_mxid_localpart self request ticket
    client_redirect_url session (c : Completion) :
  handle_ticket fromstring map_username_to_mxid_localpart self
    request ticket client_redirect_url session = Ok c →
  ∃ username user_display_name,
    _validate_ticket fromstring self ticket
      (ticket_args client_redirect_url session)
    = Ok (username, user_display_name) ∧
    match c with
    | complete_sso_login user_id url =>
        Str.truthy session = None ∧
        client_redirect_url = Some url ∧ url ≠ EmptyString ∧
        _map_cas_user_to_matrix_user map_username_to_mxid_localpart self
          username user_display_name
          (get_user_agent request EmptyString) (get_ip_from_request request)
        = Ok user_id
    | complete_sso_ui_auth user_id s =>
        session = Some s ∧ s ≠ EmptyString ∧
        _map_cas_user_to_matrix_user map_username_to_mxid_localpart self
          username user_display_name
          (get_user_agent request EmptyString) (get_ip_from_request request)
        = Ok user_id
    | render_error error msg =>
        error = "mapping_error" ∧
        _map_cas_user_to_matrix_user map_username_to_mxid_localpart self
          username user_display_name
          (get_user_agent request EmptyString) (get_ip_from_request request)
        = Raise (MappingException msg)
    end.
Proof.
  unfold handle_ticket.
  destruct (_validate_ticket fromstring self ticket
              (ticket_args client_redirect_url session))
    as [[username user_display_name]|e]; simpl; [|done].
  intros H. exists username, user_display_name. split; [done|].
  destruct (_map_cas_user_to_matrix_user map_username_to_mxid_localpart self
              username user_display_name _ _) as [user_id|e].
  - destruct (Str.truthy session) as [s|] eqn:Hs.
    + injection H as <-. apply truthy_Some in Hs as [-> Hs]. done.
    + destruct (Str.truthy client_redirect_url) as [url|] eqn:Hurl; [|done].
      injection H as <-. apply truthy_Some in Hurl as [-> Hurl]. done.
  - destruct e; try done. injection H as <-. done.
Qed.

Lemma X15_witness :
  ∃ username user_display_name,
    _validate_ticket (λ _, Ok response_alice)
      (example_handler None ∅ (Ok "body") (λ _, []) (Ok "@alice:example.org"))
      "T1" (ticket_args (Some "https://client.example/cb") None)
    = Ok (username, user_display_name) ∧
    Str.truthy None = None ∧
    Some "https://client.example/cb" = Some "https://client.example/cb" ∧
    "https://client.example/cb" ≠ EmptyString ∧
    _map_cas_user_to_matrix_user lower
      (example_handler None ∅ (Ok "body") (λ _, []) (Ok "@alice:example.org"))
      username user_display_name
      (get_user_agent {| user_agent_header := None; client_ip := "192.0.2.1" |}
         EmptyString)
      (get_ip_from_request
         {| user_agent_header := None; client_ip := "192.0.2.1" |})
    = Ok "@alice:example.org".
Proof.
  refine (X15_completion_inversion (λ _, Ok response_alice) lower
            (example_handler None ∅ (Ok "body") (λ _, [])
               (Ok "@alice:example.org"))
            {| user_agent_header := None; client_ip := "192.0.2.1" |}
            "T1" (Some "https://client.example/cb") None
            (complete_sso_login "@alice:example.org" "https://client.example/cb")
            _).
  vm_compute. reflexivity.
Defined.

(** X16. The service arguments rebuilt from a request hold [redirectUrl]
    exactly when the request has a non-empty redirect URL and [session]
    exactly when it has a non-empty session, with those values, [redirectUrl]
    first; no key occurs twice and no other key occurs. *)
Theorem X16_ticket_args_content
    (client_redirect_url session : option string) :
  ticket_args client_redirect_url session =
    match Str.truthy client_redirect_url with
    | Some url => [("redirectUrl", url)]
    | None => []
    end ++
    match Str.truthy session with
    | Some s => [("session", s)]
    | None => []
    end ∧
  NoDup (ticket_args client_redirect_url session).*1 ∧
  Forall (λ kv, kv.2 ≠ EmptyString) (ticket_args client_redirect_url session).
Proof.
  unfold ticket_args.
  destruct (Str.truthy client_redirect_url) as [url|] eqn:Hurl;
    destruct (Str.truthy session) as [s|] eqn:Hs; simpl;
    try apply truthy_Some in Hurl as [_ Hurl];
    try apply truthy_Some in Hs as [_ Hs];
    (split; [done|split]).
  all: try done.
  all: try (repeat (constructor; [by simpl|]); by constructor).
  all: compute_done.
Qed.

(** ** Further properties of the validator and the callbacks *)

(** X17. For an attribute tag of the form [{namespace}local], with no closing
    brace inside the namespace or the local name, the attribute is stored
    under the local name, with the element's text as value. *)
Theorem X17_namespace_is_stripped
    (ns local : string) (value : option string) (cs rest : list Element)
    (attributes : gmap string (option string)) :
  Str.contains "}" ns = false →
  Str.contains "}" local = false →
  attribute_key ("{" +:+ ns +:+ "}" +:+ local) = Ok local ∧
  for_attribute
    (mkElement ("{" +:+ ns +:+ "}" +:+ local) value cs :: rest) attributes
  = for_attribute rest (<[local := value]> attributes).
Proof.
  intros Hns Hlocal.
  assert (Hkey : attribute_key ("{" +:+ ns +:+ "}" +:+ local) = Ok local).
  { apply (attribute_key_one_brace (String "{" ns) local); [|done].
    simpl. by rewrite Hns. }
  split; [done|]. cbn [for_attribute tag text]. by rewrite Hkey.
Qed.

Lemma X17_witness :
  attribute_key ("{" +:+ "http://example.org" +:+ "}" +:+ "department")
    = Ok "department" ∧
  for_attribute
    [mkElement ("{" +:+ "http://example.org" +:+ "}" +:+ "department")
       (Some "eng") []] ∅
  = for_attribute [] (<["department" := Some "eng"]> ∅).
Proof.
  apply (X17_namespace_is_stripped "http://example.org" "department"
           (Some "eng") [] [] ∅);
    reflexivity.
Defined.

(** X18. An accepted ticket satisfies the policy on the response itself: when
    [_validate_ticket] returns, the body was fetched and parsed, the returned
    user is the parsed one, and every required attribute is among the parsed
    attributes, with the expected value when the policy gives one. *)
Theorem X18_accepted_ticket_meets_policy
    fromstring self ticket service_args (user : string)
    (displayname : option string) :
  _validate_ticket fromstring self ticket service_args = Ok (user, displayname) →
  ∃ body parsed,
    fetch_body self ticket service_args = Ok body ∧
    _parse_cas_response fromstring body = Ok (user, parsed) ∧
    ∀ k rv, _cas_required_attributes self !! k = Some rv →
      ∃ actual_value, parsed !! k = Some actual_value ∧
                      ∀ v, rv = Some v → actual_value = Some v.
Proof.
  intros H.
  destruct (fetch_body self ticket service_args) as [body|e] eqn:Hfetch;
    [|by unfold _validate_ticket in H; rewrite Hfetch in H].
  destruct (_parse_cas_response fromstring body) as [[u parsed]|e] eqn:Hparse;
    [|by unfold _validate_ticket in H; rewrite Hfetch in H; simpl in H;
         rewrite Hparse in H].
  rewrite (validate_ticket_parsed _ _ _ _ _ _ _ Hfetch Hparse) in H.
  destruct (for_required _ _) as [[]|e] eqn:Hfor; [|done].
  injection H as -> _. exists body, parsed. split; [done|split; [done|]].
  intros k rv Hk.
  set (attributes := (pop parsed (_cas_displayname_attribute self)).2) in *.
  assert (Hsub : ∀ av, attributes !! k = Some av → parsed !! k = Some av).
  { unfold attributes, pop.
    destruct (_cas_displayname_attribute self) as [dn|]; simpl; [|done].
    intros av Hav. apply lookup_delete_Some in Hav. by destruct Hav. }
  assert (Hok : ¬ violated attributes k rv).
  { intros Hv.
    assert (for_required (map_to_list (_cas_required_attributes self)) attributes
            = Raise Unauthorized) as Hbad
      by (apply required_violation_iff; eauto).
    rewrite Hbad in Hfor. done. }
  destruct (attributes !! k) as [av|] eqn:Hav; [|by destruct Hok; left].
  exists av. split; [by apply Hsub|].
  intros v ->. destruct (decide (av = Some v)) as [|Hne]; [done|].
  destruct Hok. right. by exists av, v.
Qed.

Lemma X18_witness :
  ∃ body parsed,
    fetch_body
      (example_handler None {[ "department" := Some "eng" ]} (Ok "body")
         (λ _, []) (Ok EmptyString)) "T1" [] = Ok body ∧
    _parse_cas_response
      (λ _, Ok (response_with_attributes
                  [mkElement (cas "department") (Some "eng") []])) body
    = Ok ("alice", parsed) ∧
    ∀ k rv,
      _cas_required_attributes
        (example_handler None {[ "department" := Some "eng" ]} (Ok "body")
           (λ _, []) (Ok EmptyString)) !! k = Some rv →
      ∃ actual_value, parsed !! k = Some actual_value ∧
                      ∀ v, rv = Some v → actual_value = Some v.
Proof.
  refine (X18_accepted_ticket_meets_policy
            (λ _, Ok (response_with_attributes
                        [mkElement (cas "department") (Some "eng") []]))
            (example_handler None {[ "department" := Some "eng" ]} (Ok "body")
               (λ _, []) (Ok EmptyString))
            "T1" [] "alice" None _).
  vm_compute. reflexivity.
Defined.

(** X19. The two callbacks agree on the local identifier: the id the
    grandfathering lookup asks the store for is the id made of the localpart
    the attribute provider returns and the handler's hostname. *)
Theorem X19_callbacks_use_the_same_localpart
    (map_username_to_mxid_localpart : string → string) (self : CasHandler)
    (remote_user_id : string) (display_name : option string)
    (attributes : UserAttributes) :
  cas_response_to_user_attributes map_username_to_mxid_localpart
    remote_user_id display_name 0 = Ok attributes →
  grandfather_existing_users map_username_to_mxid_localpart self
    remote_user_id () =
  head (get_users_by_id_case_insensitive self
          (UserID_to_string (localpart attributes) (_hostname self))).*1.
Proof.
  unfold cas_response_to_user_attributes, grandfather_existing_users. simpl.
  intros [= <-]. simpl.
  by destruct (get_users_by_id_case_insensitive self _) as [|[id row] users].
Qed.

Lemma X19_witness :
  grandfather_existing_users lower
    (example_handler None ∅ (Ok EmptyString) legacy_store (Ok EmptyString))
    "Alice" () =
  head (legacy_store (UserID_to_string "alice" "example.org")).*1.
Proof.
  exact (X19_callbacks_use_the_same_localpart lower
           (example_handler None ∅ (Ok EmptyString) legacy_store (Ok EmptyString))
           "Alice" None {| localpart := "alice"; display_name := None |}
           eq_refl).
Defined.
